(** * Prompt formatting, response extraction and dataset slicing of the
    Mistral-7B LoRA fine-tuning script

    Shallow embedding of the pure parts of
    [mistral_7b_lora_fine_tuning_on_alpaca_dataset.py]:

    - [format_instruction] (the training-time Alpaca template),
    - the prompt construction and the response extraction inside
      [generate_response],
    - the prefix selection [train_size] / [train_dataset],
    - the constant [DATASET_SIZE] and the closing console message.

    Python [str] values are sequences of Unicode code points; they are
    modelled as lists of code points.  Python [float] values are IEEE-754
    binary64 numbers; they are modelled with the executable specification
    [SpecFloat] of the standard library at precision 53 and maximal
    exponent 1024. *)

From Stdlib Require Import Ascii String.
From Stdlib Require Import List Bool Arith ZArith NArith Lia.
From Stdlib Require Import SpecFloat.
Import ListNotations.

(* ================================================================= *)
(** ** Python strings *)

Module PyStr.

(** A character is a Unicode code point. *)
Definition char := N.
Definition str := list char.

(** A source literal; the literals of the script are pure ASCII. *)
Definition lit (s : string) : str :=
  map N_of_ascii (list_ascii_of_string s).

Arguments lit s%_string.

(** The escape [\n]. *)
Definition nl : char := 10%N.

(** Truth value of a string: [if s:] holds exactly for non-empty [s]. *)
Definition truthy (s : str) : bool :=
  match s with
  | [] => false
  | _ :: _ => true
  end.

(** [s.startswith(p)] *)
Fixpoint startswith (p s : str) : bool :=
  match p, s with
  | [], _ => true
  | _ :: _, [] => false
  | a :: p', b :: s' => N.eqb a b && startswith p' s'
  end.

(** [s.endswith(p)] *)
Definition endswith (p s : str) : bool :=
  startswith (rev p) (rev s).

(** [s.find(sub)]: index of the first occurrence, [None] for Python's -1. *)
Fixpoint find (sub s : str) : option nat :=
  if startswith sub s then Some 0
  else match s with
       | [] => None
       | _ :: s' => option_map S (find sub s')
       end.

(** [sub in s] *)
Definition contains (sub s : str) : bool :=
  match find sub s with
  | Some _ => true
  | None => false
  end.

(** [sub] occurs in [s] at index [i]. *)
Definition occurs_at (sub s : str) (i : nat) : bool :=
  startswith sub (skipn i s).

(** The loop of [s.split(sep)]: search the next occurrence of [sep],
    emit the segment before it, continue after it; the rest of the
    string is the last segment.  [fuel] bounds the number of rounds;
    every round consumes at least one character when [sep] is not
    empty. *)
Fixpoint split_from (fuel : nat) (sep s : str) : list str :=
  match fuel with
  | 0 => [s]
  | S fuel' =>
      match find sep s with
      | None => [s]
      | Some i =>
          firstn i s :: split_from fuel' sep (skipn (i + length sep) s)
      end
  end.

(** [s.split(sep)]; an empty separator raises [ValueError]. *)
Definition split (sep s : str) : option (list str) :=
  match sep with
  | [] => None
  | _ :: _ => Some (split_from (length s) sep s)
  end.

(** [l[-1]]; an empty list raises [IndexError]. *)
Definition last_item (l : list str) : option str :=
  match l with
  | [] => None
  | x :: l' => Some (last l' x)
  end.

(** [c.isspace()] for a single code point: the white space table of
    CPython ([_PyUnicode_IsWhitespace]). *)
Definition isspace (c : char) : bool :=
  ((9 <=? c) && (c <=? 13)
   || (28 <=? c) && (c <=? 32)
   || (c =? 133) || (c =? 160) || (c =? 5760)
   || (8192 <=? c) && (c <=? 8202)
   || (c =? 8232) || (c =? 8233) || (c =? 8239) || (c =? 8287)
   || (c =? 12288))%N.

(** [s.lstrip()], [s.rstrip()], [s.strip()] *)
Fixpoint lstrip (s : str) : str :=
  match s with
  | [] => []
  | c :: s' => if isspace c then lstrip s' else s
  end.

Definition rstrip (s : str) : str := rev (lstrip (rev s)).

Definition strip (s : str) : str := rstrip (lstrip s).

(** No character of [s] is a newline. *)
Definition nl_free (s : str) : bool :=
  forallb (fun c => negb (N.eqb c nl)) s.

End PyStr.

Import PyStr.

(** Sequencing of operations that may raise. *)
Definition bind {A B : Type} (x : option A) (f : A -> option B) : option B :=
  match x with
  | Some a => f a
  | None => None
  end.

Notation "x >>= f" := (bind x f) (at level 50, left associativity).

(* ================================================================= *)
(** ** Step 6: the training template *)

(** A row of the Alpaca dataset. *)
Record Example := mkExample {
  instruction : str;
  input : str;
  output : str
}.

(** The dictionary [{"text": prompt}]. *)
Record Formatted := mkFormatted { text : str }.

Definition INSTRUCTION_MARKER : str := lit "### Instruction:".
Definition INPUT_MARKER : str := lit "### Input:".
Definition RESPONSE_MARKER : str := lit "### Response:".

Definition preamble_with_input : str :=
  lit "Below is an instruction that describes a task, paired with an input that provides further context. Write a response that appropriately completes the request.".

Definition preamble_without_input : str :=
  lit "Below is an instruction that describes a task. Write a response that appropriately completes the request.".

Definition format_instruction (example : Example) : Formatted :=
  let instruction := instruction example in
  let input_text := input example in
  let output := output example in
  let prompt :=
    if truthy input_text then
      preamble_with_input ++ [nl; nl] ++
      INSTRUCTION_MARKER ++ [nl] ++ instruction ++ [nl; nl] ++
      INPUT_MARKER ++ [nl] ++ input_text ++ [nl; nl] ++
      RESPONSE_MARKER ++ [nl] ++ output
    else
      preamble_without_input ++ [nl; nl] ++
      INSTRUCTION_MARKER ++ [nl] ++ instruction ++ [nl; nl] ++
      RESPONSE_MARKER ++ [nl] ++ output
  in
  mkFormatted prompt.

(* ================================================================= *)
(** ** Step 14: inference *)

(** The prompt assembled at the head of [generate_response]. *)
Definition build_prompt (instruction input_text : str) : str :=
  if truthy input_text then
    preamble_with_input ++ [nl; nl] ++
    INSTRUCTION_MARKER ++ [nl] ++ instruction ++ [nl; nl] ++
    INPUT_MARKER ++ [nl] ++ input_text ++ [nl; nl] ++
    RESPONSE_MARKER ++ [nl]
  else
    preamble_without_input ++ [nl; nl] ++
    INSTRUCTION_MARKER ++ [nl] ++ instruction ++ [nl; nl] ++
    RESPONSE_MARKER ++ [nl].

(** [response.split("### Response:")[-1].strip()] *)
Definition extract_response (response : str) : option str :=
  split RESPONSE_MARKER response >>= fun parts =>
  last_item parts >>= fun part =>
  Some (strip part).

Section Generation.

(** Tokenisation, sampling from the fine-tuned model and decoding of the
    first returned sequence are library calls; their composition is a
    parameter of the model. *)
Variable decode_generate : str -> str.

Definition generate_response (instruction input_text : str) : option str :=
  let prompt := build_prompt instruction input_text in
  let response := decode_generate prompt in
  extract_response response.

End Generation.

(* ================================================================= *)
(** ** Python floats and integers *)

Module Float64.

Definition prec : Z := 53.
Definition emax : Z := 1024.

(** A Python [float]: an IEEE-754 binary64 number. *)
Definition float := spec_float.

(** [float(n)] as performed by [n * x] on an integer [n]: the nearest
    double, ties to even; an integer beyond the range of the doubles
    raises [OverflowError]. *)
Definition of_int (n : Z) : option float :=
  match binary_normalize prec emax n 0 false with
  | S754_infinity _ => None
  | f => Some f
  end.

(** [x * y] and [x / y] on floats (division by zero is not used). *)
Definition mul (x y : float) : float := SFmul prec emax x y.
Definition div (x y : float) : float := SFdiv prec emax x y.

(** [int(x)]: truncation toward zero; infinities and NaN raise. *)
Definition to_int (x : float) : option Z :=
  match x with
  | S754_zero _ => Some 0%Z
  | S754_finite s m e => Some (cond_Zopp s (Z.shiftl (Zpos m) e))
  | S754_infinity _ => None
  | S754_nan => None
  end.

(** The decimal literal [d]e-[k], e.g. [0.01] is [decimal 1 2]: the
    double nearest to d / 10^k.  For the short literals used here both
    operands of the division are exact, and the quotient is correctly
    rounded. *)
Definition decimal (d : Z) (k : nat) : float :=
  div (binary_normalize prec emax d 0 false)
      (binary_normalize prec emax (10 ^ Z.of_nat k) 0 false).

Definition zero : float := S754_zero false.
Definition one : float := decimal 1 0.

(** The floor of the exact product of an integer and the value of a
    double, with no rounding of the product. *)
Definition exact_floor_mul (n : Z) (x : float) : option Z :=
  match x with
  | S754_zero _ => Some 0%Z
  | S754_finite s m e => Some (Z.shiftl (n * cond_Zopp s (Zpos m)) e)
  | S754_infinity _ => None
  | S754_nan => None
  end.

End Float64.

(* ================================================================= *)
(** ** Step 4: configuration, and the closing message *)

(** [DATASET_SIZE = 0.01] *)
Definition DATASET_SIZE : Float64.float := Float64.decimal 1 2.

(** The last line printed by the script. *)
Definition closing_message : str :=
  lit "The model has been fine-tuned on 5% of the Alpaca dataset using LoRA.".

(** Reading the percentage that a message states: the value of a decimal
    digit, the digits that stand directly before the first occurrence of
    a character, and the number they write. *)
Definition digit_value (c : char) : option N :=
  if ((48 <=? c) && (c <=? 57))%N then Some (c - 48)%N else None.

Fixpoint digits_before (acc : list N) (s : str) (stop : char)
  : option (list N) :=
  match s with
  | [] => None
  | c :: s' =>
      if N.eqb c stop then Some acc
      else match digit_value c with
           | Some d => digits_before (acc ++ [d]) s' stop
           | None => digits_before [] s' stop
           end
  end.

(** The figure in front of the first percent sign (code point 37). *)
Definition percent_figure (s : str) : option N :=
  match digits_before [] s 37%N with
  | Some (d :: ds) => Some (fold_left (fun a x => (10 * a + x)%N) (d :: ds) 0%N)
  | _ => None
  end.

(* ================================================================= *)
(** ** Step 5: the prefix of the dataset *)

(** [range(k)]: empty when [k <= 0]. *)
Definition range (k : Z) : list nat := seq 0 (Z.to_nat k).

(** The rows at the given indices, in the order given; an index outside
    the dataset raises [IndexError]. *)
Fixpoint select_rows {A : Type} (rows : list A) (indices : list nat)
  : option (list A) :=
  match indices with
  | [] => Some []
  | i :: indices' =>
      nth_error rows i >>= fun row =>
      select_rows rows indices' >>= fun rest =>
      Some (row :: rest)
  end.

(** [Dataset.select(indices)] of the [datasets] library: an empty dataset
    is handed back as it is, before the indices are looked at. *)
Definition select {A : Type} (rows : list A) (indices : list nat)
  : option (list A) :=
  match rows with
  | [] => Some []
  | _ :: _ => select_rows rows indices
  end.

(** [int(len(dataset['train']) * DATASET_SIZE)], for any fraction. *)
Definition train_size (len : Z) (fraction : Float64.float) : option Z :=
  Float64.of_int len >>= fun n =>
  Float64.to_int (Float64.mul n fraction).

(** The slicer: [rows.select(range(int(len(rows) * fraction)))]. *)
Definition slice {A : Type} (rows : list A) (fraction : Float64.float)
  : option (list A) :=
  train_size (Z.of_nat (length rows)) fraction >>= fun k =>
  select rows (range k).

(** [train_dataset], the slice at the configured fraction. *)
Definition train_dataset {A : Type} (rows : list A) : option (list A) :=
  slice rows DATASET_SIZE.

(* ================================================================= *)
(** ** Step 6, continued: the formatted training set *)

(** [train_dataset.map(format_instruction, remove_columns=...)]: the
    records of the rows of the training slice, in their order; with the
    original columns removed only ["text"] is left. *)
Definition formatted_dataset (rows : list Example) : option (list Formatted) :=
  train_dataset rows >>= fun train =>
  Some (map format_instruction train).

(* ================================================================= *)
(** ** Step 9: counting the parameters *)

(** What the loop reads of a parameter tensor: [param.numel()] and
    [param.requires_grad]. *)
Record Param := mkParam {
  numel : N;
  requires_grad : bool
}.

(** One round of [for _, param in model.named_parameters()], on the pair
    [(trainable_params, all_param)]. *)
Definition count_step (counts : N * N) (named : str * Param) : N * N :=
  let '(trainable_params, all_param) := counts in
  let '(_, param) := named in
  let all_param := (all_param + numel param)%N in
  let trainable_params :=
    if requires_grad param then (trainable_params + numel param)%N
    else trainable_params in
  (trainable_params, all_param).

(** The loop, from [trainable_params = 0] and [all_param = 0]. *)
Definition count_parameters (named_parameters : list (str * Param))
  : N * N :=
  fold_left count_step named_parameters (0%N, 0%N).

(* ================================================================= *)
(** ** Separators that cannot overlap themselves *)

(** No proper non-empty suffix of [m] is a prefix of [m]. *)
Definition border_free (m : str) : bool :=
  forallb (fun d => negb (startswith (skipn d m) m)) (seq 1 (length m - 1)).

(* ================================================================= *)
(** ** Facts about the string primitives *)

Module PyStrFacts.

Lemma startswith_refl_app (p r : str) : startswith p (p ++ r) = true.
Proof.
  induction p as [|a p IH]; simpl; [reflexivity|].
  now rewrite N.eqb_refl, IH.
Qed.

Lemma startswith_split (p s : str) :
  startswith p s = true -> s = p ++ skipn (length p) s.
Proof.
  revert s; induction p as [|a p IH]; intros [|b s]; simpl; try easy.
  intros H; apply andb_true_iff in H as [Hab Hps].
  apply N.eqb_eq in Hab; subst b.
  now rewrite <- (IH _ Hps).
Qed.

Lemma startswith_length (p s : str) :
  startswith p s = true -> length p <= length s.
Proof.
  revert s; induction p as [|a p IH]; intros [|b s]; simpl; try easy; try lia.
  intros H; apply andb_true_iff in H as [_ Hps].
  apply IH in Hps; lia.
Qed.

Lemma startswith_app (p a b : str) :
  startswith p a = true -> startswith p (a ++ b) = true.
Proof.
  revert a; induction p as [|c p IH]; intros [|d a]; simpl; try easy.
  intros H; apply andb_true_iff in H as [-> H]; now rewrite IH.
Qed.

(** A newline-free pattern cannot reach across a newline. *)
Lemma startswith_app_nl (p a b : str) :
  nl_free p = true ->
  startswith p (a ++ nl :: b) = startswith p a.
Proof.
  revert a; induction p as [|c p IH]; intros a Hp; [now destruct a|].
  simpl in Hp; apply andb_true_iff in Hp as [Hc Hp].
  destruct a as [|d a]; simpl.
  - apply negb_true_iff in Hc; now rewrite Hc.
  - now rewrite IH.
Qed.

Lemma contains_cons (sub : str) (c : char) (s : str) :
  contains sub (c :: s) = startswith sub (c :: s) || contains sub s.
Proof.
  unfold contains; cbn [find].
  destruct (startswith sub (c :: s)); [reflexivity|].
  now destruct (find sub s).
Qed.

Lemma contains_nil (c : char) (sub : str) : contains (c :: sub) [] = false.
Proof. reflexivity. Qed.

Lemma contains_false_find (sub s : str) :
  contains sub s = false -> find sub s = None.
Proof. unfold contains; now destruct (find sub s). Qed.

Lemma find_some_contains (sub s : str) (i : nat) :
  find sub s = Some i -> contains sub s = true.
Proof. unfold contains; now intros ->. Qed.

(** Occurrences of a newline-free pattern in [a ++ "\n" ++ b] lie
    entirely in [a] or entirely in [b]. *)
Lemma contains_app_nl (c : char) (sub a b : str) :
  nl_free (c :: sub) = true ->
  contains (c :: sub) (a ++ nl :: b)
  = contains (c :: sub) a || contains (c :: sub) b.
Proof.
  intros Hp; induction a as [|d a IH].
  - cbn [app]. rewrite contains_cons, contains_nil.
    change (nl :: b) with ([] ++ nl :: b).
    now rewrite (startswith_app_nl _ [] b Hp).
  - cbn [app]. rewrite !contains_cons, IH.
    change (d :: a ++ nl :: b) with ((d :: a) ++ nl :: b).
    rewrite (startswith_app_nl _ (d :: a) b Hp).
    now rewrite orb_assoc.
Qed.

Lemma contains_app_l (sub a b : str) :
  contains sub a = true -> contains sub (a ++ b) = true.
Proof.
  induction a as [|d a IH].
  - destruct sub; [now destruct b | discriminate].
  - cbn [app]; rewrite !contains_cons.
    intros H; apply orb_true_iff in H as [H|H].
    + change (d :: a ++ b) with ((d :: a) ++ b).
      now rewrite (startswith_app _ _ b H).
    + rewrite (IH H); apply orb_true_r.
Qed.

Lemma contains_app_r (sub a b : str) :
  contains sub b = true -> contains sub (a ++ b) = true.
Proof.
  intros H; induction a as [|d a IH]; [exact H|].
  cbn [app]; rewrite contains_cons, IH; apply orb_true_r.
Qed.

(** Where the first occurrence is found, the pattern is. *)
Lemma find_some (sub s : str) (i : nat) :
  find sub s = Some i ->
  s = firstn i s ++ sub ++ skipn (i + length sub) s.
Proof.
  revert i; induction s as [|d s IH]; intros i; cbn [find].
  - destruct (startswith sub []) eqn:E; [|discriminate].
    intros [= <-]; exact (startswith_split _ _ E).
  - destruct (startswith sub (d :: s)) eqn:E.
    + intros [= <-]; exact (startswith_split _ _ E).
    + destruct (find sub s) as [j|]; [|discriminate].
      intros [= <-]; cbn. f_equal; now apply IH.
Qed.

Lemma find_some_bound (sub s : str) (i : nat) :
  find sub s = Some i -> i + length sub <= length s.
Proof.
  revert i; induction s as [|d s IH]; intros i; cbn [find].
  - destruct (startswith sub []) eqn:E; [|discriminate].
    intros [= <-]; exact (startswith_length _ _ E).
  - destruct (startswith sub (d :: s)) eqn:E.
    + intros [= <-]; exact (startswith_length _ _ E).
    + destruct (find sub s) as [j|]; [|discriminate].
      intros [= <-]. specialize (IH j eq_refl). cbn [length]; lia.
Qed.

(** The first occurrence of a newline-free pattern in
    [a ++ "\n" ++ b] is the first one in [a] if there is one, and
    otherwise the first one in [b]. *)
Lemma find_app_nl (c : char) (sub a b : str) :
  nl_free (c :: sub) = true ->
  find (c :: sub) (a ++ nl :: b)
  = match find (c :: sub) a with
    | Some i => Some i
    | None => option_map (fun j => length a + 1 + j) (find (c :: sub) b)
    end.
Proof.
  intros Hp; induction a as [|d a IH].
  - cbn [app find length].
    change (nl :: b) with ([] ++ nl :: b) at 1.
    rewrite (startswith_app_nl _ [] b Hp).
    cbn [startswith]. now destruct (find (c :: sub) b).
  - cbn [app find].
    change (d :: a ++ nl :: b) with ((d :: a) ++ nl :: b).
    rewrite (startswith_app_nl _ (d :: a) b Hp).
    destruct (startswith (c :: sub) (d :: a)); [reflexivity|].
    rewrite IH. destruct (find (c :: sub) a); [reflexivity|].
    now destruct (find (c :: sub) b).
Qed.

Lemma startswith_find_0 (sub s : str) :
  startswith sub s = true -> find sub s = Some 0.
Proof. intros H; destruct s; cbn [find]; now rewrite H. Qed.

Lemma skipn_past (a p r : str) :
  skipn (length a + 1 + 0 + length p) (a ++ nl :: p ++ r) = r.
Proof.
  induction a as [|d a IH]; [|exact IH].
  cbn [length app Nat.add skipn].
  induction p as [|e p IHp]; [reflexivity | exact IHp].
Qed.

Lemma split_from_no_marker (fuel : nat) (sep s : str) :
  contains sep s = false -> split_from fuel sep s = [s].
Proof.
  intros H; apply contains_false_find in H.
  destruct fuel; cbn; [reflexivity | now rewrite H].
Qed.

Lemma split_from_nonempty (fuel : nat) (sep s : str) :
  split_from fuel sep s <> [].
Proof.
  destruct fuel; cbn; [easy|]. now destruct (find sep s).
Qed.

(** The number of rounds never exceeds the length of the string: any
    larger bound gives the same segments. *)
Lemma split_from_fuel (c : char) (sep : str) (fuel fuel' : nat) (s : str) :
  length s <= fuel -> length s <= fuel' ->
  split_from fuel (c :: sep) s = split_from fuel' (c :: sep) s.
Proof.
  revert fuel' s; induction fuel as [|fuel IH]; intros fuel' s H H'.
  - destruct s; [|cbn in H; lia]. now destruct fuel'.
  - destruct fuel' as [|fuel'].
    + destruct s; [reflexivity | cbn in H'; lia].
    + cbn [split_from].
      destruct (find (c :: sep) s) as [i|] eqn:E; [|reflexivity].
      pose proof (find_some_bound _ _ _ E) as Hb. cbn [length] in Hb.
      f_equal. apply IH; rewrite length_skipn; cbn [length]; lia.
Qed.

Lemma last_item_cons (x : str) (l : list str) :
  l <> [] -> last_item (x :: l) = last_item l.
Proof.
  destruct l as [|y l]; [easy|]. intros _; cbn [last_item]; f_equal.
  revert x y; induction l as [|z l IH]; intros x y; [reflexivity|].
  change (last (y :: z :: l) x) with (last (z :: l) x).
  change (last (z :: l) y) with (last (z :: l) y).
  rewrite (IH x z). symmetry. exact (IH y z).
Qed.

(** The last segment of a split at a newline-free separator that is
    enclosed in newlines and not repeated afterwards. *)
Lemma last_split_from (c : char) (sep tail : str) :
  nl_free (c :: sep) = true ->
  contains (c :: sep) tail = false ->
  forall (fuel : nat) (head : str),
    length (head ++ nl :: (c :: sep) ++ nl :: tail) <= fuel ->
    last_item (split_from fuel (c :: sep)
                 (head ++ nl :: (c :: sep) ++ nl :: tail))
    = Some (nl :: tail).
Proof.
  intros Hp Ht.
  assert (Hnt : contains (c :: sep) (nl :: tail) = false).
  { change (nl :: tail) with ([] ++ nl :: tail).
    now rewrite (contains_app_nl _ _ [] tail Hp), Ht. }
  induction fuel as [|fuel IH]; intros head Hlen.
  - destruct head; cbn in Hlen; lia.
  - cbn [split_from]. rewrite (find_app_nl _ _ head _ Hp).
    destruct (find (c :: sep) head) as [i|] eqn:Ef.
    + pose proof (find_some_bound _ _ _ Ef) as Hb.
      rewrite skipn_app.
      replace (i + length (c :: sep) - length head) with 0 by lia.
      cbn [skipn].
      rewrite last_item_cons by apply split_from_nonempty.
      apply IH.
      rewrite length_app in *. rewrite length_skipn.
      cbn [length] in *. lia.
    + rewrite startswith_find_0 by apply startswith_refl_app.
      cbn [option_map].
      rewrite skipn_past.
      rewrite split_from_no_marker by exact Hnt.
      reflexivity.
Qed.

(** The last segment never contains the separator. *)
Lemma last_split_from_free (c : char) (sep : str) (fuel : nat) (s : str) :
  length s <= fuel ->
  exists part : str,
    last_item (split_from fuel (c :: sep) s) = Some part
    /\ contains (c :: sep) part = false.
Proof.
  revert s; induction fuel as [|fuel IH]; intros s H.
  - destruct s; [|cbn in H; lia]. now exists [].
  - cbn [split_from].
    destruct (find (c :: sep) s) as [i|] eqn:E.
    + pose proof (find_some_bound _ _ _ E) as Hb. cbn [length] in Hb.
      rewrite last_item_cons by apply split_from_nonempty.
      apply IH. rewrite length_skipn. cbn [length]. lia.
    + exists s. split; [reflexivity|]. unfold contains. now rewrite E.
Qed.

(** Trimming removes a prefix and a suffix. *)
Lemma lstrip_suffix (s : str) : exists a : str, s = a ++ lstrip s.
Proof.
  induction s as [|c s [a IH]]; [now exists []|].
  cbn [lstrip]. destruct (isspace c).
  - exists (c :: a). cbn [app]. now rewrite <- IH.
  - now exists [].
Qed.

Lemma rstrip_prefix (s : str) : exists b : str, s = rstrip s ++ b.
Proof.
  unfold rstrip. destruct (lstrip_suffix (rev s)) as [a Ha].
  exists (rev a).
  rewrite <- rev_app_distr, <- Ha. now rewrite rev_involutive.
Qed.

Lemma contains_app_false (sub a s b : str) :
  contains sub (a ++ s ++ b) = false -> contains sub s = false.
Proof.
  intros H. destruct (contains sub s) eqn:E; [|reflexivity].
  rewrite (contains_app_r sub a (s ++ b)) in H; [discriminate|].
  now apply contains_app_l.
Qed.

Lemma contains_strip_false (sub s : str) :
  contains sub s = false -> contains sub (strip s) = false.
Proof.
  intros H. unfold strip.
  destruct (lstrip_suffix s) as [a Ha].
  destruct (rstrip_prefix (lstrip s)) as [b Hb].
  apply (contains_app_false sub a _ b). now rewrite <- Hb, <- Ha.
Qed.

(** Trimming stops at a character that is not white space. *)
Lemma lstrip_app_keep (x : str) (c : char) (z : str) :
  isspace c = false ->
  exists x' : str, lstrip (x ++ c :: z) = x' ++ c :: z.
Proof.
  intros Hc. induction x as [|d x [x' IH]].
  - exists []. cbn [app lstrip]. now rewrite Hc.
  - cbn [app lstrip]. destruct (isspace d).
    + now exists x'.
    + now exists (d :: x).
Qed.

Lemma rstrip_app_keep (z : str) (c : char) (y : str) :
  isspace c = false ->
  exists y' : str, rstrip ((z ++ [c]) ++ y) = (z ++ [c]) ++ y'.
Proof.
  intros Hc. unfold rstrip.
  rewrite rev_app_distr, rev_app_distr. cbn [rev app].
  destruct (lstrip_app_keep (rev y) c (rev z) Hc) as [y' ->].
  exists (rev y').
  rewrite rev_app_distr. cbn [rev]. now rewrite rev_involutive.
Qed.

(** A pattern that begins and ends with characters other than white
    space survives trimming. *)
Lemma contains_strip_true (c d : char) (mid s : str) :
  isspace c = false -> isspace d = false ->
  contains (c :: mid ++ [d]) s = true ->
  contains (c :: mid ++ [d]) (strip s) = true.
Proof.
  intros Hc Hd H. unfold contains in H.
  destruct (find (c :: mid ++ [d]) s) as [i|] eqn:E; [clear H|discriminate].
  apply find_some in E. rewrite E. unfold strip.
  set (x := firstn i s). set (y := skipn _ s).
  cbn [app].
  destruct (lstrip_app_keep x c ((mid ++ [d]) ++ y) Hc) as [x' ->].
  replace (x' ++ c :: (mid ++ [d]) ++ y)
    with (((x' ++ c :: mid) ++ [d]) ++ y)
    by (rewrite <- !app_assoc; reflexivity).
  destruct (rstrip_app_keep (x' ++ c :: mid) d y Hd) as [y' ->].
  apply contains_app_l.
  rewrite <- app_assoc. apply contains_app_r. cbn [app].
  unfold contains.
  rewrite startswith_find_0; [reflexivity|].
  rewrite <- (app_nil_r (c :: mid ++ [d])) at 2.
  apply startswith_refl_app.
Qed.

Lemma contains_app_newline (sub a b : str) :
  truthy sub = true -> nl_free sub = true ->
  contains sub (a ++ nl :: b) = contains sub a || contains sub b.
Proof.
  destruct sub as [|c sub]; [discriminate|].
  intros _; apply contains_app_nl.
Qed.

(** [s.split(sep)[-1]] when the last occurrence of [sep] is enclosed in
    newlines. *)
Lemma split_last_enclosed (sep head tail : str) :
  truthy sep = true -> nl_free sep = true ->
  contains sep tail = false ->
  split sep (head ++ nl :: sep ++ nl :: tail) >>= last_item
  = Some (nl :: tail).
Proof.
  destruct sep as [|c sep]; [discriminate|].
  intros _ Hp Ht. cbn [split bind].
  now apply last_split_from.
Qed.

(** [s.split(sep)[-1]] when [sep] does not occur in [s]. *)
Lemma split_last_absent (sep s : str) :
  truthy sep = true -> contains sep s = false ->
  split sep s >>= last_item = Some s.
Proof.
  destruct sep as [|c sep]; [discriminate|].
  intros _ H. cbn [split bind].
  now rewrite split_from_no_marker.
Qed.

Lemma strip_newline (s : str) : strip (nl :: s) = strip s.
Proof. reflexivity. Qed.

Lemma endswith_app (a p : str) : endswith p (a ++ p) = true.
Proof. unfold endswith. rewrite rev_app_distr. apply startswith_refl_app. Qed.

Lemma occurs_at_here (sub r : str) : occurs_at sub (sub ++ r) 0 = true.
Proof. apply startswith_refl_app. Qed.

Lemma occurs_at_skip (sub a s : str) (i : nat) :
  occurs_at sub (a ++ s) (length a + i) = occurs_at sub s i.
Proof. unfold occurs_at. induction a as [|d a IH]; [reflexivity | exact IH]. Qed.

End PyStrFacts.

Import PyStrFacts.

(* ================================================================= *)
(** ** Facts about binary64 arithmetic *)

Module Float64Facts.
Import Float64.

Local Open Scope Z_scope.

Lemma one_eq : one = S754_finite false 4503599627370496 (-52).
Proof. reflexivity. Qed.

(** The number of binary digits of a positive number. *)
Lemma digits2_pos_bound (p : positive) :
  2 ^ (Zpos (digits2_pos p) - 1) <= Zpos p < 2 ^ Zpos (digits2_pos p).
Proof.
  induction p as [p IH|p IH|]; cbn [digits2_pos].
  - rewrite Pos2Z.inj_succ. change (Zpos p~1) with (2 * Zpos p + 1).
    replace (Z.succ (Zpos (digits2_pos p)) - 1)
      with (Z.succ (Zpos (digits2_pos p) - 1)) by lia.
    rewrite !Z.pow_succ_r by lia. lia.
  - rewrite Pos2Z.inj_succ. change (Zpos p~0) with (2 * Zpos p).
    replace (Z.succ (Zpos (digits2_pos p)) - 1)
      with (Z.succ (Zpos (digits2_pos p) - 1)) by lia.
    rewrite !Z.pow_succ_r by lia. lia.
  - cbn; lia.
Qed.

Lemma digits2_pos_le (p : positive) (d : Z) :
  0 <= d -> Zpos p < 2 ^ d -> Zpos (digits2_pos p) <= d.
Proof.
  intros Hd Hp. destruct (digits2_pos_bound p) as [Hlo _].
  destruct (Z_le_gt_dec (Zpos (digits2_pos p)) d) as [H|H]; [exact H|].
  assert (2 ^ d <= 2 ^ (Zpos (digits2_pos p) - 1))
    by (apply Z.pow_le_mono_r; lia).
  lia.
Qed.

Lemma iter_xO_shiftl (p k : positive) :
  Zpos (Pos.iter xO p k) = Zpos p * 2 ^ Zpos k.
Proof.
  rewrite <- Z.shiftl_mul_pow2 by lia. unfold Z.shiftl.
  apply (Pos.iter_swap_gen _ _ Zpos xO (Z.mul 2)). reflexivity.
Qed.

Lemma iter_succ_add (a k : positive) :
  Pos.iter Pos.succ a k = (a + k)%positive.
Proof.
  induction k as [|k IH] using Pos.peano_ind.
  - cbn. now rewrite Pos.add_1_r.
  - rewrite Pos.iter_succ, IH. now rewrite Pos.add_succ_r.
Qed.

Lemma digits2_pos_iter_xO (p k : positive) :
  digits2_pos (Pos.iter xO p k) = (digits2_pos p + k)%positive.
Proof.
  rewrite <- iter_succ_add.
  apply (Pos.iter_swap_gen _ _ digits2_pos xO Pos.succ). reflexivity.
Qed.

(** Rounding leaves a mantissa of 53 digits with an exponent in range
    as it is. *)
Lemma binary_round_aux_canonical (s : bool) (m : positive) (e : Z) :
  digits2_pos m = 53%positive ->
  -1074 <= e <= 971 ->
  binary_round_aux prec emax s (Zpos m) e loc_Exact = S754_finite s m e.
Proof.
  intros Hd He.
  unfold binary_round_aux, shr_fexp, fexp, emin, Zdigits2, prec, emax.
  rewrite Hd.
  replace (Z.max (53 + e - 53) (3 - 1024 - 53) - e) with 0 by lia.
  cbn [shr shr_record_of_loc shr_m loc_of_shr_record round_nearest_even
       Zdigits2].
  rewrite Hd.
  replace (Z.max (53 + e - 53) (3 - 1024 - 53) - e) with 0 by lia.
  cbn [shr shr_record_of_loc shr_m].
  replace (e <=? 1024 - 53) with true by (symmetry; apply Z.leb_le; lia).
  reflexivity.
Qed.

(** [float(n)] of a positive integer below 2^53 is exact: a normal
    number [m * 2^e] of value [n]. *)
Lemma of_int_pos_exact (p : positive) :
  Zpos p < 2 ^ 53 ->
  exists (m : positive) (e : Z),
    of_int (Zpos p) = Some (S754_finite false m e)
    /\ digits2_pos m = 53%positive
    /\ -52 <= e <= 0
    /\ Zpos m = Zpos p * 2 ^ (- e).
Proof.
  intros Hp.
  pose proof (digits2_pos_le p 53 ltac:(lia) Hp) as Hd.
  unfold of_int, binary_normalize, binary_round, shl_align, fexp, emin,
    prec, emax.
  replace (Z.max (Zpos (digits2_pos p) + 0 - 53) (3 - 1024 - 53) - 0)
    with (Zpos (digits2_pos p) - 53) by lia.
  replace (Z.max (Zpos (digits2_pos p) + 0 - 53) (3 - 1024 - 53))
    with (Zpos (digits2_pos p) - 53) by lia.
  destruct (Zpos (digits2_pos p) - 53) as [|k|k] eqn:Ek; [| lia |].
  - assert (Hd53 : digits2_pos p = 53%positive) by lia.
    exists p, 0.
    change (binary_round_aux 53 1024) with (binary_round_aux prec emax).
    rewrite binary_round_aux_canonical by (assumption || lia).
    repeat split; lia.
  - assert (Hdk : digits2_pos (Pos.iter xO p k) = 53%positive).
    { rewrite digits2_pos_iter_xO. lia. }
    exists (Pos.iter xO p k), (Zneg k).
    change (binary_round_aux 53 1024) with (binary_round_aux prec emax).
    rewrite binary_round_aux_canonical by (assumption || lia).
    repeat split; try lia.
    rewrite iter_xO_shiftl. reflexivity.
Qed.

(** Multiplication by 1.0 is the identity on normal numbers. *)
Lemma mul_one_r (s : bool) (m : positive) (e : Z) :
  digits2_pos m = 53%positive ->
  -1022 <= e <= 971 ->
  mul (S754_finite s m e) one = S754_finite s m e.
Proof.
  intros Hd He. rewrite one_eq. unfold mul, SFmul.
  rewrite Pos.mul_comm. rewrite xorb_false_r.
  unfold binary_round_aux, shr_fexp, fexp, emin, Zdigits2, prec, emax.
  cbn [Pos.mul digits2_pos]. rewrite Hd.
  cbn [Pos.succ].
  replace (Z.max (105 + (e + -52) - 53) (3 - 1024 - 53) - (e + -52))
    with 52 by lia.
  cbn [shr shr_record_of_loc iter_pos shr_1 orb shr_m loc_of_shr_record
       round_nearest_even Zdigits2].
  rewrite Hd.
  replace (Z.max (53 + (e + -52 + 52) - 53) (3 - 1024 - 53)
           - (e + -52 + 52)) with 0 by lia.
  cbn [shr shr_record_of_loc shr_m].
  replace (e + -52 + 52) with e by lia.
  replace (e <=? 1024 - 53) with true by (symmetry; apply Z.leb_le; lia).
  reflexivity.
Qed.

(** [int(float(n) * 0.0)] and [int(float(n) * 1.0)] for a dataset
    length. *)
Lemma to_int_mul_zero (n : Z) :
  0 <= n < 2 ^ 53 ->
  of_int n >>= (fun x => to_int (mul x zero)) = Some 0.
Proof.
  intros Hn. destruct n as [|p|p]; [reflexivity | | lia].
  destruct (of_int_pos_exact p) as (m & e & -> & _); [lia|reflexivity].
Qed.

Lemma to_int_mul_one (n : Z) :
  0 <= n < 2 ^ 53 ->
  of_int n >>= (fun x => to_int (mul x one)) = Some n.
Proof.
  intros Hn. destruct n as [|p|p]; [reflexivity | | lia].
  destruct (of_int_pos_exact p) as (m & e & -> & Hd & He & Hm); [lia|].
  cbn [bind]. rewrite mul_one_r by (assumption || lia).
  cbn [to_int cond_Zopp]. f_equal.
  rewrite Z.shiftl_div_pow2 by lia. rewrite Hm.
  apply Z.div_mul. apply Z.pow_nonzero; lia.
Qed.

(** *** Right shifts with rounding information *)

Lemma iter_pos_nat {A : Type} (f : A -> A) (p : positive) (x : A) :
  iter_pos f p x = Nat.iter (Pos.to_nat p) f x.
Proof.
  revert x; induction p as [p IH|p IH|]; intros x; cbn [iter_pos].
  - rewrite !IH, Pos2Nat.inj_xI, Nat.iter_succ_r.
    replace (2 * Pos.to_nat p)%nat with (Pos.to_nat p + Pos.to_nat p)%nat
      by lia.
    now rewrite Nat.iter_add.
  - rewrite !IH, Pos2Nat.inj_xO.
    replace (2 * Pos.to_nat p)%nat with (Pos.to_nat p + Pos.to_nat p)%nat
      by lia.
    now rewrite Nat.iter_add.
  - reflexivity.
Qed.

Lemma shr_1_spec (mrs : shr_record) :
  0 <= shr_m mrs ->
  shr_m (shr_1 mrs) = shr_m mrs / 2
  /\ shr_r (shr_1 mrs) = Z.odd (shr_m mrs).
Proof.
  destruct mrs as [m r s]; cbn [shr_m]. intros Hm.
  destruct m as [|[p|p|]|]; cbn [shr_1 shr_m shr_r]; try lia.
  - now split.
  - split; [|reflexivity].
    change (Zpos p~1) with (2 * Zpos p + 1). Z.div_mod_to_equations; lia.
  - split; [|reflexivity].
    change (Zpos p~0) with (2 * Zpos p). Z.div_mod_to_equations; lia.
  - now split.
Qed.

Lemma shr_iter_spec (k : nat) (mrs : shr_record) :
  0 <= shr_m mrs ->
  shr_m (Nat.iter (S k) shr_1 mrs) = shr_m mrs / 2 ^ Z.of_nat (S k)
  /\ shr_r (Nat.iter (S k) shr_1 mrs) = Z.odd (shr_m mrs / 2 ^ Z.of_nat k).
Proof.
  intros Hm.
  assert (Hk : forall j : nat,
             shr_m (Nat.iter j shr_1 mrs) = shr_m mrs / 2 ^ Z.of_nat j).
  { induction j as [|j IH].
    - cbn. now rewrite Z.div_1_r.
    - rewrite Nat.iter_succ.
      assert (Hj : 0 <= shr_m (Nat.iter j shr_1 mrs)).
      { rewrite IH. apply Z.div_pos; [exact Hm|].
        apply Z.pow_pos_nonneg; lia. }
      destruct (shr_1_spec _ Hj) as [-> _].
      rewrite IH, Nat2Z.inj_succ, Z.pow_succ_r by lia.
      rewrite Z.div_div; [now rewrite (Z.mul_comm 2) | | lia].
      apply Z.pow_nonzero; lia. }
  split; [apply Hk|].
  rewrite Nat.iter_succ.
  assert (Hj : 0 <= shr_m (Nat.iter k shr_1 mrs)).
  { rewrite Hk. apply Z.div_pos; [exact Hm|]. apply Z.pow_pos_nonneg; lia. }
  destruct (shr_1_spec _ Hj) as [_ ->]. now rewrite Hk.
Qed.

Lemma round_nearest_even_spec (mrs : shr_record) :
  shr_m mrs <= round_nearest_even (shr_m mrs) (loc_of_shr_record mrs)
            <= shr_m mrs + 1
  /\ (round_nearest_even (shr_m mrs) (loc_of_shr_record mrs) = shr_m mrs + 1
      -> shr_r mrs = true).
Proof.
  destruct mrs as [m [|] [|]];
    cbn [shr_m shr_r loc_of_shr_record round_nearest_even];
    try destruct (Z.even m); split; try lia; try reflexivity.
Qed.

Lemma odd_div_pow2_mod (a s : Z) :
  1 <= s -> 0 <= a ->
  Z.odd (a / 2 ^ (s - 1)) = true -> 2 ^ (s - 1) <= a mod 2 ^ s.
Proof.
  intros Hs Ha Hodd.
  assert (E : 2 ^ s = 2 ^ (s - 1) * 2).
  { replace s with (Z.succ (s - 1)) at 1 by lia.
    rewrite Z.pow_succ_r by lia. lia. }
  rewrite E.
  assert (0 < 2 ^ (s - 1)) by (apply Z.pow_pos_nonneg; lia).
  rewrite Z.rem_mul_r by lia.
  rewrite Zmod_odd, Hodd.
  pose proof (Z.mod_pos_bound a (2 ^ (s - 1)) ltac:(lia)). lia.
Qed.

Lemma digits2_pos_range (m : positive) (d : Z) :
  2 ^ (d - 1) <= Zpos m < 2 ^ d -> Zpos (digits2_pos m) = d.
Proof.
  intros [Hlo Hhi]. destruct (digits2_pos_bound m) as [Dlo Dhi].
  assert (Hd : 0 <= d).
  { destruct (Z_lt_le_dec d 0) as [H|H]; [|exact H].
    rewrite (Z.pow_neg_r 2 d H) in Hhi. lia. }
  destruct (Z.lt_trichotomy (Zpos (digits2_pos m)) d) as [H|[H|H]].
  - assert (2 ^ Zpos (digits2_pos m) <= 2 ^ (d - 1))
      by (apply Z.pow_le_mono_r; lia). lia.
  - exact H.
  - assert (2 ^ d <= 2 ^ (Zpos (digits2_pos m) - 1))
      by (apply Z.pow_le_mono_r; lia). lia.
Qed.

(** The first shift of the rounding of a long mantissa. *)
Lemma shr_fexp_long (m s : positive) (e : Z) :
  digits2_pos m = (53 + s)%positive ->
  -1074 <= e + Zpos s ->
  shr_fexp prec emax (Zpos m) e loc_Exact
  = (Nat.iter (Pos.to_nat s) shr_1
       {| shr_m := Zpos m; shr_r := false; shr_s := false |},
     e + Zpos s).
Proof.
  intros Hd He.
  unfold shr_fexp, fexp, emin, Zdigits2, prec, emax. rewrite Hd.
  replace (Z.max (Zpos (53 + s) + e - 53) (3 - 1024 - 53) - e)
    with (Zpos s) by lia.
  cbn [shr shr_record_of_loc]. now rewrite iter_pos_nat.
Qed.

(** The second shift: at most one position, when rounding carried into
    a 54th digit. *)
Lemma shr_fexp_rounded (q e : Z) :
  2 ^ 52 <= q <= 2 ^ 53 ->
  -1074 <= e <= 970 ->
  exists (mrs : shr_record) (m : positive) (e' : Z),
    shr_fexp prec emax q e loc_Exact = (mrs, e')
    /\ shr_m mrs = Zpos m
    /\ e' <= 971
    /\ Z.shiftl (Zpos m) e' = Z.shiftl q e.
Proof.
  intros Hq He.
  destruct q as [|m|m]; try lia.
  destruct (Z.eq_dec (Zpos m) (2 ^ 53)) as [E|E].
  - injection E as ->.
    exists {| shr_m := 2 ^ 52; shr_r := false; shr_s := false |}.
    exists (4503599627370496)%positive, (e + 1).
    unfold shr_fexp, fexp, emin, prec, emax.
    cbn [Zdigits2 digits2_pos Pos.succ].
    replace (Z.max (54 + e - 53) (3 - 1024 - 53) - e) with 1 by lia.
    refine (conj eq_refl (conj eq_refl (conj _ _))); [lia|].
    change (Zpos 9007199254740992) with (Z.shiftl 4503599627370496 1).
    rewrite Z.shiftl_shiftl by lia. f_equal; lia.
  - assert (Hd : Zpos (digits2_pos m) = 53) by (apply digits2_pos_range; lia).
    exists {| shr_m := Zpos m; shr_r := false; shr_s := false |}, m, e.
    unfold shr_fexp, fexp, emin, prec, emax, Zdigits2. rewrite Hd.
    replace (Z.max (53 + e - 53) (3 - 1024 - 53) - e) with 0 by lia.
    refine (conj eq_refl (conj eq_refl (conj _ eq_refl))). lia.
Qed.

(** The integer part of a product of two positive normal numbers,
    described through the shifted and rounded product of the mantissas. *)
Lemma to_int_mul_normal (m1 m2 : positive) (e1 e2 : Z) :
  digits2_pos m1 = 53%positive ->
  digits2_pos m2 = 53%positive ->
  -1022 <= e1 + e2 <= 900 ->
  exists (s q : Z),
    (s = 52 \/ s = 53)
    /\ to_int (mul (S754_finite false m1 e1) (S754_finite false m2 e2))
       = Some (Z.shiftl q (e1 + e2 + s))
    /\ 2 ^ (s + 52) <= Zpos (m1 * m2) < 2 ^ (s + 53)
    /\ Zpos (m1 * m2) / 2 ^ s <= q <= Zpos (m1 * m2) / 2 ^ s + 1
    /\ (q = Zpos (m1 * m2) / 2 ^ s + 1 ->
        2 ^ (s - 1) <= Zpos (m1 * m2) mod 2 ^ s).
Proof.
  intros Hd1 Hd2 He.
  pose proof (digits2_pos_bound m1) as B1. rewrite Hd1 in B1.
  pose proof (digits2_pos_bound m2) as B2. rewrite Hd2 in B2.
  change (2 ^ (53 - 1)) with 4503599627370496 in B1, B2.
  change (2 ^ 53) with 9007199254740992 in B1, B2.
  assert (BP : 2 ^ 104 <= Zpos (m1 * m2) < 2 ^ 106).
  { rewrite Pos2Z.inj_mul.
    change (2 ^ 104) with (4503599627370496 * 4503599627370496).
    change (2 ^ 106) with (9007199254740992 * 9007199254740992). nia. }
  set (P := (m1 * m2)%positive) in *.
  assert (Hs : exists s : positive,
             (Zpos s = 52 \/ Zpos s = 53)
             /\ digits2_pos P = (53 + s)%positive
             /\ 2 ^ (Zpos s + 52) <= Zpos P < 2 ^ (Zpos s + 53)).
  { destruct (Z_lt_le_dec (Zpos P) (2 ^ 105)) as [H|H].
    - exists 52%positive. split; [now left|].
      assert (Zpos (digits2_pos P) = 105) by (apply digits2_pos_range; lia).
      split; [lia|]. cbn [Z.add Pos.add Pos.succ]. lia.
    - exists 53%positive. split; [now right|].
      assert (Zpos (digits2_pos P) = 106) by (apply digits2_pos_range; lia).
      split; [lia|]. cbn [Z.add Pos.add Pos.succ]. lia. }
  destruct Hs as (s & Hs & HdP & BPs).
  set (mrs := Nat.iter (Pos.to_nat s) shr_1
                {| shr_m := Zpos P; shr_r := false; shr_s := false |}).
  assert (Hmrs : shr_m mrs = Zpos P / 2 ^ Zpos s
                 /\ shr_r mrs = Z.odd (Zpos P / 2 ^ (Zpos s - 1))).
  { destruct (Pos2Nat.is_succ s) as [k Hk]. subst mrs. rewrite Hk.
    destruct (shr_iter_spec k
                {| shr_m := Zpos P; shr_r := false; shr_s := false |})
      as [Hm Hr]; [cbn; lia|].
    cbn [shr_m] in Hm, Hr. rewrite Hm, Hr.
    replace (Z.of_nat (S k)) with (Zpos s) by lia.
    replace (Z.of_nat k) with (Zpos s - 1) by lia. now split. }
  destruct Hmrs as [Hm Hr].
  pose proof (round_nearest_even_spec mrs) as [Hq Hup].
  set (q := round_nearest_even (shr_m mrs) (loc_of_shr_record mrs)) in *.
  assert (Bq : 2 ^ 52 <= Zpos P / 2 ^ Zpos s < 2 ^ 53).
  { assert (0 < 2 ^ Zpos s) by (apply Z.pow_pos_nonneg; lia).
    split.
    - apply Z.div_le_lower_bound; [lia|].
      rewrite <- Z.pow_add_r by lia. apply BPs.
    - apply Z.div_lt_upper_bound; [lia|].
      rewrite <- Z.pow_add_r by lia. apply BPs. }
  destruct (shr_fexp_rounded q (e1 + e2 + Zpos s)) as (mrs2 & m & e' & E2 & Em & He' & Esh);
    [lia | lia |].
  exists (Zpos s), q.
  refine (conj Hs (conj _ (conj BPs (conj _ _)))).
  - unfold mul, SFmul, binary_round_aux. fold P. cbn [xorb].
    rewrite (shr_fexp_long P s (e1 + e2) HdP) by lia.
    fold mrs. fold q. rewrite E2, Em.
    unfold emax, prec.
    replace (e' <=? 1024 - 53) with true by (symmetry; apply Z.leb_le; lia).
    cbn [to_int cond_Zopp]. now rewrite Esh.
  - rewrite <- Hm. exact Hq.
  - intros Eq. apply odd_div_pow2_mod; [lia | lia |].
    rewrite <- Hr. apply Hup. rewrite Hm. exact Eq.
Qed.

Lemma hundredth_eq :
  decimal 1 2 = S754_finite false 5764607523034235 (-59).
Proof. reflexivity. Qed.

(** The arithmetic behind [int(n * 0.01)]: [0.01] is
    5764607523034235 * 2^-59, that is (2^59 + 12) / (100 * 2^59); the
    excess and the rounding of the product to 53 digits stay below the
    distance of [n / 100] to the next integer. *)
Lemma hundredth_quotient (n a s q : Z) :
  0 < n < 2 ^ 53 ->
  1 <= a ->
  s = 52 \/ s = 53 ->
  (n * a * 5764607523034235) / 2 ^ s <= q
    <= (n * a * 5764607523034235) / 2 ^ s + 1 ->
  (q = (n * a * 5764607523034235) / 2 ^ s + 1 ->
   2 ^ (s - 1) <= (n * a * 5764607523034235) mod 2 ^ s) ->
  q / (2 ^ (59 - s) * a) = n / 100.
Proof.
  intros Hn Ha Hs Hq Hup.
  set (k := n / 100). set (r := n mod 100).
  assert (En : n = 100 * k + r) by (subst k r; apply Z.div_mod; lia).
  assert (Hr : 0 <= r < 100) by (subst r; apply Z.mod_pos_bound; lia).
  assert (Hk : 0 <= k) by (subst k; apply Z.div_pos; lia).
  set (u := n * a) in *. set (v := k * a). set (w := r * a).
  assert (Eu : u = 100 * v + w) by (subst u v w; rewrite En; ring).
  assert (Hw : 0 <= w <= 99 * a) by (subst w; nia).
  assert (Hv : 0 <= v) by (subst v; nia).
  assert (Hu : u <= (2 ^ 53 - 1) * a) by (subst u; nia).
  set (P := u * 5764607523034235) in *.
  symmetry. apply (Z.div_unique q _ k (q - 2 ^ (59 - s) * a * k)); [|ring].
  left.
  replace (2 ^ (59 - s) * a * k) with (2 ^ (59 - s) * v)
    by (subst v; ring).
  change (2 ^ 53) with 9007199254740992 in Hu.
  destruct Hs as [-> | ->].
  - change (2 ^ (59 - 52)) with 128.
    change (2 ^ 52) with 4503599627370496 in *.
    change (2 ^ (52 - 1)) with 2251799813685248 in *.
    pose proof (Z.div_mod P 4503599627370496 ltac:(lia)) as EP.
    pose proof (Z.mod_pos_bound P 4503599627370496 ltac:(lia)) as BP.
    set (pb := P / 4503599627370496) in *.
    set (pm := P mod 4503599627370496) in *.
    assert (EP' : P = u * 5764607523034235) by reflexivity.
    clearbody P pb pm u v w k r.
    destruct (Z.eq_dec q (pb + 1)) as [E|E].
    + specialize (Hup E). lia.
    + lia.
  - change (2 ^ (59 - 53)) with 64.
    change (2 ^ 53) with 9007199254740992 in *.
    change (2 ^ (53 - 1)) with 4503599627370496 in *.
    pose proof (Z.div_mod P 9007199254740992 ltac:(lia)) as EP.
    pose proof (Z.mod_pos_bound P 9007199254740992 ltac:(lia)) as BP.
    set (pb := P / 9007199254740992) in *.
    set (pm := P mod 9007199254740992) in *.
    assert (EP' : P = u * 5764607523034235) by reflexivity.
    clearbody P pb pm u v w k r.
    destruct (Z.eq_dec q (pb + 1)) as [E|E].
    + specialize (Hup E). lia.
    + lia.
Qed.

(** [int(n * 0.01)] is [n // 100] for every integer [n] that a double
    represents exactly. *)
Lemma to_int_mul_hundredth (n : Z) :
  0 <= n < 2 ^ 53 ->
  of_int n >>= (fun x => to_int (mul x (decimal 1 2))) = Some (n / 100).
Proof.
  intros Hn. destruct n as [|p|p]; [reflexivity | | lia].
  destruct (of_int_pos_exact p) as (m & e & -> & Hd & He & Hm); [lia|].
  cbn [bind]. rewrite hundredth_eq.
  destruct (to_int_mul_normal m 5764607523034235 e (-59) Hd eq_refl)
    as (s & q & Hs & -> & _ & Hq & Hup); [lia|].
  f_equal.
  rewrite Pos2Z.inj_mul, Hm in Hq, Hup.
  rewrite Z.shiftl_div_pow2 by lia.
  replace (- (e + -59 + s)) with ((59 - s) + - e) by lia.
  rewrite Z.pow_add_r by lia.
  apply hundredth_quotient; try assumption; lia.
Qed.

End Float64Facts.

(* ================================================================= *)
(** ** Facts about the selection of rows *)

Section Select.

Variable A : Type.

Lemma nth_error_skipn (rows : list A) (i : nat) (row : A) :
  nth_error rows i = Some row ->
  skipn i rows = row :: skipn (S i) rows.
Proof.
  revert i; induction rows as [|r rows IH]; intros [|i]; cbn; try easy.
  - now intros [= ->].
  - intros H. now rewrite (IH _ H).
Qed.

(** Selecting a contiguous range inside the dataset. *)
Lemma select_rows_seq (rows : list A) (n start : nat) :
  start + n <= length rows ->
  select_rows rows (seq start n) = Some (firstn n (skipn start rows)).
Proof.
  revert start; induction n as [|n IH]; intros start H; [reflexivity|].
  cbn [seq select_rows].
  destruct (nth_error rows start) as [row|] eqn:E.
  - cbn [bind]. rewrite IH by lia. cbn [bind].
    now rewrite (nth_error_skipn _ _ _ E).
  - apply nth_error_None in E. lia.
Qed.

Lemma select_seq (rows : list A) (n start : nat) :
  start + n <= length rows ->
  select rows (seq start n) = Some (firstn n (skipn start rows)).
Proof.
  destruct rows as [|r rows]; [|apply select_rows_seq].
  cbn [length]. intros H.
  replace n with 0 by lia. replace start with 0 by lia. reflexivity.
Qed.

(** A range that leaves a non-empty dataset raises. *)
Lemma select_seq_out (rows : list A) (n start : nat) :
  rows <> [] -> 0 < n -> length rows < start + n ->
  select rows (seq start n) = None.
Proof.
  intros Hne. destruct rows as [|r rows]; [contradiction|].
  unfold select. generalize (r :: rows). clear. intros rows.
  revert start; induction n as [|n IH]; intros start Hn H; [lia|].
  cbn [seq select_rows].
  destruct (nth_error rows start) as [row|] eqn:E; [|reflexivity].
  assert (start < length rows) by (apply nth_error_Some; congruence).
  cbn [bind]. rewrite IH by lia. reflexivity.
Qed.

Lemma select_range (rows : list A) (k : Z) :
  (k <= Z.of_nat (length rows))%Z ->
  select rows (range k) = Some (firstn (Z.to_nat k) rows).
Proof.
  intros H. unfold range. rewrite select_seq by (cbn; lia). reflexivity.
Qed.

End Select.

(* ================================================================= *)
(** ** The primitives on concrete inputs *)

Example split_commas :
  split (lit ",") (lit "a,b,,c") = Some [lit "a"; lit "b"; []; lit "c"].
Proof. reflexivity. Qed.

Example split_adjacent :
  split (lit "ab") (lit "ababa") = Some [[]; []; lit "a"].
Proof. reflexivity. Qed.

Example split_absent : split (lit "--") (lit "a-b") = Some [lit "a-b"].
Proof. reflexivity. Qed.

Example strip_both_sides : strip (lit "  x y " ++ [nl]) = lit "x y".
Proof. reflexivity. Qed.

Example find_second : find (lit "lo") (lit "hello") = Some 3.
Proof. reflexivity. Qed.

Example DATASET_SIZE_bits :
  DATASET_SIZE = S754_finite false 5764607523034235 (-59).
Proof. reflexivity. Qed.

(** The Alpaca training split has 52002 rows. *)
Example train_size_alpaca : train_size 52002 DATASET_SIZE = Some 520%Z.
Proof. vm_compute; reflexivity. Qed.

(* ================================================================= *)
(** ** The training template and the inference prompt *)

Lemma bind_assoc_last (x : option (list str)) :
  (x >>= fun parts => last_item parts >>= fun part => Some (strip part))
  = ((x >>= last_item) >>= fun part => Some (strip part)).
Proof. now destruct x. Qed.

(** The training text is the inference prompt followed by the output. *)
Lemma format_instruction_build_prompt (example : Example) :
  text (format_instruction example)
  = build_prompt (instruction example) (input example) ++ output example.
Proof.
  unfold format_instruction, build_prompt; cbn [text].
  destruct (truthy (input example)); now rewrite <- !app_assoc.
Qed.

(** Every prompt ends in the response marker enclosed in newlines. *)
Lemma build_prompt_tail (instruction input_text : str) :
  exists head : str,
    build_prompt instruction input_text
    = head ++ nl :: RESPONSE_MARKER ++ [nl].
Proof.
  unfold build_prompt; destruct (truthy input_text).
  - exists (preamble_with_input ++ [nl; nl] ++ INSTRUCTION_MARKER ++ [nl]
            ++ instruction ++ [nl] ++ [nl] ++ INPUT_MARKER ++ [nl]
            ++ input_text ++ [nl]).
    now rewrite <- !app_assoc.
  - exists (preamble_without_input ++ [nl; nl] ++ INSTRUCTION_MARKER ++ [nl]
            ++ instruction ++ [nl]).
    now rewrite <- !app_assoc.
Qed.

(** Extraction after a prompt: the continuation, trimmed. *)
Lemma extract_after_prompt (instruction input_text suffix : str) :
  contains RESPONSE_MARKER suffix = false ->
  extract_response (build_prompt instruction input_text ++ suffix)
  = Some (strip suffix).
Proof.
  intros Hs.
  destruct (build_prompt_tail instruction input_text) as [head ->].
  unfold extract_response. rewrite bind_assoc_last.
  replace ((head ++ nl :: RESPONSE_MARKER ++ [nl]) ++ suffix)
    with (head ++ nl :: RESPONSE_MARKER ++ nl :: suffix)
    by (now rewrite <- !app_assoc).
  rewrite split_last_enclosed by (reflexivity || exact Hs).
  reflexivity.
Qed.

(* ================================================================= *)
(** ** Properties of the prompt formatter *)

(** C1: for an example with a non-empty [input], the formatted text
    contains the markers "### Instruction:", "### Input:" and
    "### Response:" at three positions in this order, one after the end of
    the other. *)
Theorem format_instruction_markers_in_order (example : Example) :
  input example <> [] ->
  exists i j k : nat,
    occurs_at INSTRUCTION_MARKER (text (format_instruction example)) i = true
    /\ occurs_at INPUT_MARKER (text (format_instruction example)) j = true
    /\ occurs_at RESPONSE_MARKER (text (format_instruction example)) k = true
    /\ i + length INSTRUCTION_MARKER <= j
    /\ j + length INPUT_MARKER <= k.
Proof.
  intros Hin. unfold format_instruction; cbn [text].
  destruct (input example) as [|c inp] eqn:E; [contradiction|].
  cbn [truthy]. clear Hin.
  set (p := preamble_with_input).
  set (ins := instruction example). set (out := output example).
  set (inp' := c :: inp).
  exists (length p + (length [nl; nl] + 0)).
  exists (length p + (length [nl; nl] + (length INSTRUCTION_MARKER
            + (length [nl] + (length ins + (length [nl; nl] + 0)))))).
  exists (length p + (length [nl; nl] + (length INSTRUCTION_MARKER
            + (length [nl] + (length ins + (length [nl; nl]
            + (length INPUT_MARKER + (length [nl] + (length inp'
            + (length [nl; nl] + 0)))))))))).
  refine (conj _ (conj _ (conj _ (conj _ _)))).
  - rewrite !occurs_at_skip. apply occurs_at_here.
  - rewrite !occurs_at_skip. apply occurs_at_here.
  - rewrite !occurs_at_skip. apply occurs_at_here.
  - cbn [length]; lia.
  - cbn [length]; lia.
Qed.

Lemma format_instruction_markers_in_order_witness :
  input (mkExample (lit "Write a short poem about nature.")
                   (lit "autumn") (lit "Leaves fall.")) <> []
  /\ exists i j k : nat,
       let t := text (format_instruction
                        (mkExample (lit "Write a short poem about nature.")
                                   (lit "autumn") (lit "Leaves fall."))) in
       occurs_at INSTRUCTION_MARKER t i = true
       /\ occurs_at INPUT_MARKER t j = true
       /\ occurs_at RESPONSE_MARKER t k = true
       /\ i + length INSTRUCTION_MARKER <= j
       /\ j + length INPUT_MARKER <= k.
Proof.
  split; [discriminate|].
  apply (format_instruction_markers_in_order
           (mkExample (lit "Write a short poem about nature.")
                      (lit "autumn") (lit "Leaves fall."))).
  discriminate.
Defined.

(** C2, as stated, fails: the fields are substituted verbatim, so an
    instruction that quotes the marker brings it into the text. *)
Lemma format_instruction_input_marker_counterexample :
  input (mkExample (lit "Describe the ### Input: section.") [] (lit "ok")) = []
  /\ contains INPUT_MARKER
       (text (format_instruction
                (mkExample (lit "Describe the ### Input: section.") []
                           (lit "ok")))) = true.
Proof. split; reflexivity. Qed.

(** C2, amended: for an example with an empty [input], the formatted text
    contains "### Input:" exactly when the instruction or the output
    contains it; the template itself contributes no such marker. *)
Theorem format_instruction_input_marker_only_from_fields (example : Example) :
  input example = [] ->
  contains INPUT_MARKER (text (format_instruction example))
  = contains INPUT_MARKER (instruction example)
    || contains INPUT_MARKER (output example).
Proof.
  intros E. unfold format_instruction; cbn [text]. rewrite E; cbn [truthy].
  change (preamble_without_input ++ [nl; nl] ++ INSTRUCTION_MARKER ++ [nl]
          ++ instruction example ++ [nl; nl] ++ RESPONSE_MARKER ++ [nl]
          ++ output example)
    with (preamble_without_input ++ nl :: [] ++ nl :: INSTRUCTION_MARKER
          ++ nl :: instruction example ++ nl :: [] ++ nl :: RESPONSE_MARKER
          ++ nl :: output example).
  rewrite !contains_app_newline by reflexivity.
  replace (contains INPUT_MARKER preamble_without_input) with false
    by reflexivity.
  replace (contains INPUT_MARKER INSTRUCTION_MARKER) with false
    by reflexivity.
  replace (contains INPUT_MARKER RESPONSE_MARKER) with false by reflexivity.
  replace (contains INPUT_MARKER []) with false by reflexivity.
  cbn [orb]. reflexivity.
Qed.

Lemma format_instruction_input_marker_only_from_fields_witness :
  input (mkExample (lit "Say hi") [] (lit "Hi!")) = []
  /\ contains INPUT_MARKER
       (text (format_instruction (mkExample (lit "Say hi") [] (lit "Hi!"))))
     = contains INPUT_MARKER (lit "Say hi")
       || contains INPUT_MARKER (lit "Hi!").
Proof.
  split; [reflexivity|].
  apply (format_instruction_input_marker_only_from_fields
           (mkExample (lit "Say hi") [] (lit "Hi!"))).
  reflexivity.
Defined.

(** C5: the training text is the inference prompt with the output
    appended, in both branches of the template, and the prompt ends with
    "### Response:\n". *)
Theorem format_instruction_mirrors_build_prompt
  (instruction input_text output : str) :
  text (format_instruction (mkExample instruction input_text output))
  = build_prompt instruction input_text ++ output
  /\ endswith (RESPONSE_MARKER ++ [nl]) (build_prompt instruction input_text)
     = true.
Proof.
  split.
  - apply (format_instruction_build_prompt
             (mkExample instruction input_text output)).
  - destruct (build_prompt_tail instruction input_text) as [head ->].
    change (head ++ nl :: RESPONSE_MARKER ++ [nl])
      with (head ++ [nl] ++ RESPONSE_MARKER ++ [nl]).
    rewrite app_assoc. apply endswith_app.
Qed.

(** C7: the scenario of the specification. *)
Theorem format_instruction_say_hi :
  endswith (lit "### Response:" ++ [nl] ++ lit "Hi!")
    (text (format_instruction (mkExample (lit "Say hi") [] (lit "Hi!"))))
  = true
  /\ contains (lit "### Input:")
       (text (format_instruction (mkExample (lit "Say hi") [] (lit "Hi!"))))
     = false.
Proof. split; vm_compute; reflexivity. Qed.

(** C10: for every example the formatted text ends with
    "### Response:\n" followed by the output, and nothing after it. *)
Theorem format_instruction_ends_with_output (example : Example) :
  endswith (RESPONSE_MARKER ++ [nl] ++ output example)
    (text (format_instruction example)) = true.
Proof.
  unfold format_instruction; cbn [text].
  destruct (truthy (input example)).
  - rewrite !(app_assoc _ _ (RESPONSE_MARKER ++ _)). apply endswith_app.
  - rewrite !(app_assoc _ _ (RESPONSE_MARKER ++ _)). apply endswith_app.
Qed.

(* ================================================================= *)
(** ** Properties of the response extraction *)

(** C3: on generation output that continues the prompt with a suffix in
    which the marker does not occur again, extraction returns the suffix,
    trimmed. *)
Theorem extract_response_right_inverse
  (instruction input_text suffix : str) :
  contains RESPONSE_MARKER suffix = false ->
  extract_response (build_prompt instruction input_text ++ suffix)
  = Some (strip suffix).
Proof. apply extract_after_prompt. Qed.

Lemma extract_response_right_inverse_witness :
  contains RESPONSE_MARKER (lit " Nature is green. ") = false
  /\ extract_response
       (build_prompt (lit "Write a short poem about nature.") []
        ++ lit " Nature is green. ")
     = Some (strip (lit " Nature is green. ")).
Proof.
  split; [reflexivity|].
  apply (extract_response_right_inverse
           (lit "Write a short poem about nature.") []
           (lit " Nature is green. ")).
  reflexivity.
Defined.

(** The same for the whole of [generate_response], whatever the model
    that produces the continuation. *)
Lemma generate_response_returns_suffix
  (decode_generate : str -> str) (instruction input_text suffix : str) :
  decode_generate (build_prompt instruction input_text)
  = build_prompt instruction input_text ++ suffix ->
  contains RESPONSE_MARKER suffix = false ->
  generate_response decode_generate instruction input_text
  = Some (strip suffix).
Proof.
  intros Hgen Hs. unfold generate_response. rewrite Hgen.
  now apply extract_after_prompt.
Qed.

(** Extraction never raises, and what it returns is taken from a segment
    without the marker. *)
Lemma extract_response_total (response : str) :
  exists part : str,
    extract_response response = Some (strip part)
    /\ contains RESPONSE_MARKER part = false.
Proof.
  unfold extract_response. rewrite bind_assoc_last.
  change RESPONSE_MARKER with (@cons char 35%N (lit "## Response:")).
  cbn [split bind].
  destruct (last_split_from_free 35%N (lit "## Response:")
              (length response) response (Nat.le_refl _))
    as (part & Hl & Hp).
  exists part. now rewrite Hl.
Qed.

(** The hypothesis of the right-inverse property cannot be weakened:
    extraction returns the trimmed suffix exactly when the marker does
    not occur in the suffix. *)
Lemma extract_response_right_inverse_iff
  (instruction input_text suffix : str) :
  extract_response (build_prompt instruction input_text ++ suffix)
  = Some (strip suffix)
  <-> contains RESPONSE_MARKER suffix = false.
Proof.
  split; [|apply extract_after_prompt].
  intros H.
  destruct (contains RESPONSE_MARKER suffix) eqn:E; [exfalso|reflexivity].
  destruct (extract_response_total
              (build_prompt instruction input_text ++ suffix))
    as (part & Hpart & Hfree).
  rewrite Hpart in H. injection H as H.
  apply contains_strip_false in Hfree. rewrite H in Hfree.
  change RESPONSE_MARKER
    with (@cons char 35%N (lit "## Response" ++ @cons char 58%N [])) in *.
  rewrite contains_strip_true in Hfree by (reflexivity || exact E).
  discriminate.
Qed.

(** A continuation that repeats the marker is cut at its last
    occurrence. *)
Lemma extract_response_repeated_marker :
  extract_response
    (build_prompt (lit "Say hi") [] ++ lit "Hi! ### Response: Hello!")
  = Some (lit "Hello!").
Proof. vm_compute; reflexivity. Qed.

(** C6: without the marker, extraction returns the whole input, trimmed,
    and raises nothing. *)
Theorem extract_response_marker_absent (response : str) :
  contains RESPONSE_MARKER response = false ->
  extract_response response = Some (strip response).
Proof.
  intros H. unfold extract_response. rewrite bind_assoc_last.
  rewrite split_last_absent by (reflexivity || exact H).
  reflexivity.
Qed.

Lemma extract_response_marker_absent_witness :
  contains RESPONSE_MARKER (lit "  plain text  ") = false
  /\ extract_response (lit "  plain text  ")
     = Some (strip (lit "  plain text  ")).
Proof.
  split; [reflexivity|].
  apply (extract_response_marker_absent (lit "  plain text  ")).
  reflexivity.
Defined.

(** C9: extraction applied to a formatted training record whose output
    does not contain the marker recovers the output, trimmed. *)
Theorem extract_response_of_formatted (example : Example) :
  contains RESPONSE_MARKER (output example) = false ->
  extract_response (text (format_instruction example))
  = Some (strip (output example)).
Proof.
  intros H. rewrite format_instruction_build_prompt.
  now apply extract_after_prompt.
Qed.

Lemma extract_response_of_formatted_witness :
  contains RESPONSE_MARKER
    (output (mkExample (lit "Say hi") [] (lit " Hi! "))) = false
  /\ extract_response
       (text (format_instruction (mkExample (lit "Say hi") [] (lit " Hi! "))))
     = Some (strip (output (mkExample (lit "Say hi") [] (lit " Hi! ")))).
Proof.
  split; [reflexivity|].
  apply (extract_response_of_formatted
           (mkExample (lit "Say hi") [] (lit " Hi! "))).
  reflexivity.
Defined.

(* ================================================================= *)
(** ** Properties of the dataset slicer *)

Import Float64 Float64Facts.

(** C4, as stated, fails.  For the fraction written [0.29] and 100 rows
    the slice has 28 rows, not floor(100 * 0.29) = 29: the double nearest
    to 0.29 lies below it.  For the fraction written [0.7] and 10 rows
    the slice has 7 rows, although the floor of 10 times the value of
    that double is 6: the product is rounded up to 7.0.  For the
    fraction [1.5] the selection leaves the dataset and raises. *)
Lemma slice_floor_counterexample :
  slice (seq 0 100) (decimal 29 2) = Some (seq 0 28)
  /\ (100 * 29 / 100 = 29)%Z
  /\ slice (seq 0 10) (decimal 7 1) = Some (seq 0 7)
  /\ exact_floor_mul 10 (decimal 7 1) = Some 6%Z
  /\ slice (seq 0 2) (decimal 15 1) = None.
Proof. repeat split; vm_compute; reflexivity. Qed.

(** The count of the slicer at the fractions 0.0 and 1.0. *)
Lemma train_size_zero (len : Z) :
  (0 <= len < 2 ^ 53)%Z -> train_size len zero = Some 0%Z.
Proof. apply to_int_mul_zero. Qed.

Lemma train_size_one (len : Z) :
  (0 <= len < 2 ^ 53)%Z -> train_size len one = Some len.
Proof. apply to_int_mul_one. Qed.

Lemma slice_one {A : Type} (rows : list A) :
  (Z.of_nat (length rows) < 2 ^ 53)%Z -> slice rows one = Some rows.
Proof.
  intros H. unfold slice. rewrite train_size_one by lia. cbn [bind].
  rewrite select_range by lia. now rewrite Nat2Z.id, firstn_all.
Qed.

Lemma slice_length {A : Type} (rows sl : list A) (fraction : float) :
  slice rows fraction = Some sl -> length sl <= length rows.
Proof.
  unfold slice. destruct (train_size _ fraction) as [k|]; [|discriminate].
  cbn [bind]. intros H.
  destruct rows as [|r rows]; [now injection H as <-|].
  destruct (Z_le_gt_dec k (Z.of_nat (length (r :: rows)))) as [Hk|Hk].
  - rewrite select_range in H by exact Hk. injection H as <-.
    rewrite length_firstn. lia.
  - unfold range in H.
    rewrite select_seq_out in H by (discriminate || lia).
    discriminate.
Qed.

Lemma train_size_DATASET_SIZE (len : Z) :
  (0 <= len < 2 ^ 53)%Z -> train_size len DATASET_SIZE = Some (len / 100)%Z.
Proof. apply to_int_mul_hundredth. Qed.

(** C4, amended.  For an arbitrary fraction the count is
    [k = int(float(len) * fraction)], the binary64 product truncated
    toward zero, and whenever [0 <= k <= len] the slice consists of
    exactly the first [k] rows in their order.  For datasets of fewer
    than 2^53 rows: at the configured fraction 0.01 the slice consists of
    the first floor(len / 100) rows; the fraction 0.0 gives the empty
    slice; the fraction 1.0 gives the dataset unchanged; slicing a slice
    again at 1.0 returns it unchanged. *)
Theorem slice_prefix {A : Type} (rows : list A) :
  (forall (fraction : float) (k : Z),
      train_size (Z.of_nat (length rows)) fraction = Some k ->
      (0 <= k <= Z.of_nat (length rows))%Z ->
      slice rows fraction = Some (firstn (Z.to_nat k) rows)
      /\ Z.of_nat (length (firstn (Z.to_nat k) rows)) = k)
  /\ ((Z.of_nat (length rows) < 2 ^ 53)%Z ->
      train_dataset rows = Some (firstn (length rows / 100) rows)
      /\ length (firstn (length rows / 100) rows) = (length rows / 100)%nat
      /\ slice rows zero = Some []
      /\ slice rows one = Some rows
      /\ forall (fraction : float) (sl : list A),
           slice rows fraction = Some sl -> slice sl one = Some sl).
Proof.
  split; [|intros Hlen; refine (conj _ (conj _ (conj _ (conj _ _))))].
  - intros fraction k Hk Hr. unfold slice. rewrite Hk. cbn [bind].
    rewrite select_range by lia. split; [reflexivity|].
    rewrite length_firstn. lia.
  - unfold train_dataset, slice.
    rewrite train_size_DATASET_SIZE by lia. cbn [bind].
    assert (Hdiv : (Z.of_nat (length rows) / 100
                    = Z.of_nat (length rows / 100))%Z)
      by (now rewrite Nat2Z.inj_div).
    assert (length rows / 100 <= length rows)
      by (apply Nat.Div0.div_le_upper_bound; lia).
    rewrite select_range by lia.
    now rewrite Hdiv, Nat2Z.id.
  - rewrite length_firstn.
    assert (length rows / 100 <= length rows)
      by (apply Nat.Div0.div_le_upper_bound; lia).
    lia.
  - unfold slice. rewrite train_size_zero by lia. cbn [bind].
    now rewrite select_range by lia.
  - now apply slice_one.
  - intros fraction sl Hs. apply slice_one.
    apply slice_length in Hs. lia.
Qed.

Lemma slice_prefix_witness :
  (train_size (Z.of_nat (length (seq 0 8))) (decimal 5 1) = Some 4%Z
   /\ (0 <= 4 <= Z.of_nat (length (seq 0 8)))%Z
   /\ slice (seq 0 8) (decimal 5 1) = Some (firstn (Z.to_nat 4) (seq 0 8))
   /\ Z.of_nat (length (firstn (Z.to_nat 4) (seq 0 8))) = 4%Z)
  /\ ((Z.of_nat (length (seq 0 300)) < 2 ^ 53)%Z
      /\ train_dataset (seq 0 300) = Some [0; 1; 2]
      /\ slice (seq 0 300) zero = Some []
      /\ slice (seq 0 300) one = Some (seq 0 300)).
Proof.
  assert (H1 : train_size (Z.of_nat (length (seq 0 8))) (decimal 5 1)
               = Some 4%Z) by (vm_compute; reflexivity).
  assert (H2 : (0 <= 4 <= Z.of_nat (length (seq 0 8)))%Z)
    by (vm_compute; split; discriminate).
  assert (H3 : (Z.of_nat (length (seq 0 300)) < 2 ^ 53)%Z)
    by (vm_compute; reflexivity).
  destruct (slice_prefix (seq 0 8)) as [Hp _].
  destruct (Hp (decimal 5 1) 4%Z H1 H2) as [Hs Hl].
  destruct (slice_prefix (seq 0 300)) as [_ Hb].
  destruct (Hb H3) as (Ht & _ & Hz & Ho & _).
  refine (conj (conj H1 (conj H2 (conj Hs Hl)))
               (conj H3 (conj Ht (conj Hz Ho)))).
Defined.

(* ================================================================= *)
(** ** The configured fraction and the closing message *)

(** C8: the closing message says "5% of the Alpaca dataset", while
    [DATASET_SIZE] is the double written [0.01], that is 1 percent and
    not 5 percent. *)
Theorem closing_message_disagrees_with_DATASET_SIZE :
  contains (lit "5% of the Alpaca dataset") closing_message = true
  /\ percent_figure closing_message = Some 5%N
  /\ DATASET_SIZE = S754_finite false 5764607523034235 (-59)
  /\ to_int (mul (decimal 100 0) DATASET_SIZE) = Some 1%Z
  /\ SFeqb DATASET_SIZE (decimal 5 2) = false.
Proof. repeat split; vm_compute; reflexivity. Qed.

(* ================================================================= *)
(** ** More facts about searching, splitting and trimming *)

Module PyStrMoreFacts.

Lemma occurs_at_find (sub s : str) (j : nat) :
  occurs_at sub s j = true ->
  exists i : nat, find sub s = Some i /\ i <= j.
Proof.
  unfold occurs_at. revert j; induction s as [|c s IH]; intros j H.
  - rewrite skipn_nil in H. exists 0. cbn [find]. rewrite H. split; [reflexivity|lia].
  - cbn [find]. destruct (startswith sub (c :: s)) eqn:E.
    + exists 0. split; [reflexivity|lia].
    + destruct j as [|j]; [cbn [skipn] in H; congruence|].
      cbn [skipn] in H. destruct (IH j H) as (i & -> & Hi).
      exists (S i). split; [reflexivity|lia].
Qed.

Lemma find_occurs_at (sub s : str) (i : nat) :
  find sub s = Some i -> occurs_at sub s i = true.
Proof.
  unfold occurs_at. revert i; induction s as [|c s IH]; intros i; cbn [find].
  - destruct (startswith sub []) eqn:E; [|discriminate]. now intros [= <-].
  - destruct (startswith sub (c :: s)) eqn:E; [now intros [= <-]|].
    destruct (find sub s) as [j|]; [|discriminate].
    intros [= <-]. cbn [skipn]. now apply IH.
Qed.

(** Two prefixes of one string: the shorter is a prefix of the longer. *)
Lemma startswith_common (p x r : str) :
  startswith p (x ++ r) = true -> length x <= length p ->
  startswith x p = true.
Proof.
  revert p; induction x as [|c x IH]; intros p H Hl; [reflexivity|].
  destruct p as [|d p]; [cbn in Hl; lia|].
  cbn [app startswith] in *. apply andb_true_iff in H as [Hcd H].
  apply N.eqb_eq in Hcd; subst d. rewrite N.eqb_refl. cbn [andb].
  apply IH; [exact H | cbn [length] in Hl; lia].
Qed.

(** Two occurrences of a pattern that overlap give it a border. *)
Lemma overlap_border (m s : str) (i d : nat) :
  occurs_at m s i = true -> occurs_at m s (d + i) = true ->
  d <= length m ->
  startswith (skipn d m) m = true.
Proof.
  unfold occurs_at. intros Hi Hd Hl.
  rewrite <- skipn_skipn in Hd.
  rewrite (startswith_split _ _ Hi) in Hd.
  rewrite skipn_app in Hd.
  replace (d - length m) with 0 in Hd by lia. cbn [skipn] in Hd.
  apply (startswith_common _ _ _ Hd).
  rewrite length_skipn. lia.
Qed.

Lemma border_free_spec (m : str) (d : nat) :
  border_free m = true -> 0 < d < length m ->
  startswith (skipn d m) m = false.
Proof.
  unfold border_free. intros H Hd.
  rewrite forallb_forall in H.
  apply negb_true_iff, H, in_seq. lia.
Qed.

(** The last segment of a split at a separator without a border is what
    follows the last occurrence of the separator. *)
Lemma last_split_after_last (c : char) (sep b : str) :
  border_free (c :: sep) = true ->
  contains (c :: sep) b = false ->
  forall (fuel : nat) (a : str),
    length (a ++ (c :: sep) ++ b) <= fuel ->
    last_item (split_from fuel (c :: sep) (a ++ (c :: sep) ++ b)) = Some b.
Proof.
  intros Hbf Hb. induction fuel as [|fuel IH]; intros a Hlen.
  - rewrite !length_app in Hlen. cbn [length] in Hlen. lia.
  - cbn [split_from].
    assert (Hocc : occurs_at (c :: sep) (a ++ (c :: sep) ++ b) (length a + 0)
                   = true).
    { rewrite PyStrFacts.occurs_at_skip. apply PyStrFacts.occurs_at_here. }
    rewrite Nat.add_0_r in Hocc.
    destruct (occurs_at_find _ _ _ Hocc) as (i & Ef & Hi).
    rewrite Ef.
    rewrite PyStrFacts.last_item_cons by apply PyStrFacts.split_from_nonempty.
    destruct (Nat.eq_dec i (length a)) as [->|Hne].
    + rewrite skipn_app, skipn_all2 by lia.
      replace (length a + length (c :: sep) - length a)
        with (length (c :: sep)) by lia.
      rewrite skipn_app, skipn_all, Nat.sub_diag. cbn [app skipn].
      now rewrite PyStrFacts.split_from_no_marker.
    + assert (Hfit : i + length (c :: sep) <= length a).
      { destruct (le_gt_dec (i + length (c :: sep)) (length a)) as [H|H];
          [exact H|exfalso].
        pose proof (find_occurs_at _ _ _ Ef) as Hoi.
        replace (length a) with ((length a - i) + i) in Hocc by lia.
        pose proof (overlap_border _ _ _ _ Hoi Hocc ltac:(lia)) as Hbd.
        rewrite border_free_spec in Hbd by (assumption || lia).
        discriminate. }
      rewrite skipn_app.
      replace (i + length (c :: sep) - length a) with 0 by lia.
      cbn [skipn]. apply IH.
      rewrite !length_app, length_skipn in *. cbn [length] in *. lia.
Qed.

(** The last segment is a suffix of the string. *)
Lemma last_split_from_suffix (c : char) (sep : str) (fuel : nat) (s : str) :
  exists (u part : str),
    last_item (split_from fuel (c :: sep) s) = Some part /\ s = u ++ part.
Proof.
  revert s; induction fuel as [|fuel IH]; intros s.
  - now exists [], s.
  - cbn [split_from].
    destruct (find (c :: sep) s) as [i|] eqn:E; [|now exists [], s].
    rewrite PyStrFacts.last_item_cons by apply PyStrFacts.split_from_nonempty.
    destruct (IH (skipn (i + length (c :: sep)) s)) as (u & part & Hl & Hs).
    exists (firstn (i + length (c :: sep)) s ++ u), part.
    split; [exact Hl|].
    rewrite <- app_assoc, <- Hs. now rewrite firstn_skipn.
Qed.

(** *** Trimming *)

Lemma lstrip_length (s : str) : length (lstrip s) <= length s.
Proof.
  destruct (PyStrFacts.lstrip_suffix s) as [a Ha].
  rewrite Ha at 2. rewrite length_app. lia.
Qed.

Lemma lstrip_fixed_head (c : char) (s : str) :
  lstrip (c :: s) = c :: s -> isspace c = false.
Proof.
  cbn [lstrip]. destruct (isspace c); [|reflexivity].
  intros H. pose proof (lstrip_length s) as Hl.
  rewrite H in Hl. cbn [length] in Hl. lia.
Qed.

Lemma lstrip_idempotent (s : str) : lstrip (lstrip s) = lstrip s.
Proof.
  induction s as [|c s IH]; [reflexivity|].
  cbn [lstrip]. destruct (isspace c) eqn:E; [exact IH|].
  cbn [lstrip]. now rewrite E.
Qed.

Lemma rstrip_idempotent (s : str) : rstrip (rstrip s) = rstrip s.
Proof.
  unfold rstrip. now rewrite rev_involutive, lstrip_idempotent.
Qed.

(** Trimming on the right leaves a trimmed left end as it is. *)
Lemma lstrip_rstrip (s : str) :
  lstrip s = s -> lstrip (rstrip s) = rstrip s.
Proof.
  destruct s as [|c s]; [reflexivity|]. intros H.
  pose proof (lstrip_fixed_head _ _ H) as Hc.
  destruct (PyStrFacts.rstrip_app_keep [] c s Hc) as [y Hy].
  cbn [app] in Hy. rewrite Hy. cbn [lstrip]. now rewrite Hc.
Qed.

Lemma lstrip_strip (s : str) : lstrip (strip s) = strip s.
Proof. unfold strip. apply lstrip_rstrip, lstrip_idempotent. Qed.

Lemma rstrip_strip (s : str) : rstrip (strip s) = strip s.
Proof. unfold strip. apply rstrip_idempotent. Qed.

Lemma strip_idempotent (s : str) : strip (strip s) = strip s.
Proof.
  unfold strip at 1. rewrite lstrip_strip. apply rstrip_strip.
Qed.

Lemma strip_head (s : str) (c : char) :
  hd_error (strip s) = Some c -> isspace c = false.
Proof.
  pose proof (lstrip_strip s) as H.
  destruct (strip s) as [|d r]; [discriminate|].
  intros [= <-]. exact (lstrip_fixed_head _ _ H).
Qed.

Lemma strip_last (s : str) (c : char) :
  hd_error (rev (strip s)) = Some c -> isspace c = false.
Proof.
  pose proof (rstrip_strip s) as H. unfold rstrip in H.
  apply (f_equal (@rev _)) in H. rewrite rev_involutive in H.
  destruct (rev (strip s)) as [|d r]; [discriminate|].
  intros [= <-]. exact (lstrip_fixed_head _ _ H).
Qed.

Lemma strip_substring (s : str) :
  exists a b : str, s = a ++ strip s ++ b.
Proof.
  unfold strip.
  destruct (PyStrFacts.lstrip_suffix s) as [a Ha].
  destruct (PyStrFacts.rstrip_prefix (lstrip s)) as [b Hb].
  exists a, b. now rewrite <- Hb.
Qed.

End PyStrMoreFacts.

Import PyStrMoreFacts.

(* ================================================================= *)
(** ** Further properties of the prompt formatter *)

(** X1: the text begins with the preamble for paired input exactly when
    the input is non-empty, and with the other preamble exactly when it
    is empty: the branch taken can be read off the text. *)
Theorem format_instruction_preamble (example : Example) :
  startswith preamble_with_input (text (format_instruction example))
  = truthy (input example)
  /\ startswith preamble_without_input (text (format_instruction example))
     = negb (truthy (input example)).
Proof.
  unfold format_instruction; cbn [text].
  destruct (truthy (input example)); cbn [negb]; split;
    try apply startswith_refl_app; vm_compute; reflexivity.
Qed.

Lemma app_inj_length {A : Type} (a b c d : list A) :
  a ++ b = c ++ d -> length a = length c -> a = c /\ b = d.
Proof.
  revert c; induction a as [|x a IH]; intros [|y c] H Hl;
    cbn in Hl; try lia.
  - now split.
  - cbn [app] in H. injection H as -> H.
    destruct (IH c H ltac:(lia)) as [-> ->]. now split.
Qed.

(** Where a field ends: the first occurrence of a marker after a field
    that does not contain it. *)
Lemma find_after_field (c : char) (sub field rest : str) :
  nl_free (c :: sub) = true ->
  contains (c :: sub) field = false ->
  find (c :: sub) (field ++ [nl; nl] ++ (c :: sub) ++ rest)
  = Some (length field + 2).
Proof.
  intros Hp Hf.
  change (field ++ [nl; nl] ++ (c :: sub) ++ rest)
    with (field ++ nl :: ([] ++ nl :: ((c :: sub) ++ rest))).
  rewrite (find_app_nl _ _ field _ Hp), (contains_false_find _ _ Hf).
  rewrite (find_app_nl _ _ [] _ Hp).
  rewrite (startswith_find_0 _ _ (startswith_refl_app (c :: sub) rest)).
  cbn. f_equal. lia.
Qed.

Lemma fields_split (c : char) (sub f1 f2 r1 r2 : str) :
  nl_free (c :: sub) = true ->
  contains (c :: sub) f1 = false ->
  contains (c :: sub) f2 = false ->
  f1 ++ [nl; nl] ++ (c :: sub) ++ r1 = f2 ++ [nl; nl] ++ (c :: sub) ++ r2 ->
  f1 = f2 /\ r1 = r2.
Proof.
  intros Hp H1 H2 E.
  pose proof (find_after_field c sub f1 r1 Hp H1) as F1.
  pose proof (find_after_field c sub f2 r2 Hp H2) as F2.
  rewrite E, F2 in F1. injection F1 as F1.
  destruct (app_inj_length _ _ _ _ E ltac:(lia)) as [-> E'].
  split; [reflexivity|].
  apply app_inv_head in E'. now apply app_inv_head in E'.
Qed.

(** X2: a formatted record identifies its example, as long as the
    instruction quotes neither "### Input:" nor "### Response:" and the
    input does not quote "### Response:". *)
Theorem format_instruction_injective (e1 e2 : Example) :
  contains INPUT_MARKER (instruction e1) = false ->
  contains RESPONSE_MARKER (instruction e1) = false ->
  contains RESPONSE_MARKER (input e1) = false ->
  contains INPUT_MARKER (instruction e2) = false ->
  contains RESPONSE_MARKER (instruction e2) = false ->
  contains RESPONSE_MARKER (input e2) = false ->
  text (format_instruction e1) = text (format_instruction e2) ->
  e1 = e2.
Proof.
  intros I1 R1 X1 I2 R2 X2 E.
  pose proof (format_instruction_preamble e1) as [P1 _].
  pose proof (format_instruction_preamble e2) as [P2 _].
  rewrite E, P2 in P1.
  destruct e1 as [i1 x1 o1], e2 as [i2 x2 o2].
  unfold format_instruction in E. cbn [text instruction input output] in *.
  rewrite <- P1 in E.
  change INPUT_MARKER with (@cons char 35%N (lit "## Input:")) in *.
  change RESPONSE_MARKER with (@cons char 35%N (lit "## Response:")) in *.
  destruct (truthy x2) eqn:T2.
  - do 4 apply app_inv_head in E.
    destruct (fields_split 35%N (lit "## Input:") i1 i2 _ _ eq_refl I1 I2 E)
      as [-> E'].
    apply app_inv_head in E'.
    destruct (fields_split 35%N (lit "## Response:") x1 x2 _ _ eq_refl X1 X2 E')
      as [-> E''].
    apply app_inv_head in E''. now subst.
  - do 4 apply app_inv_head in E.
    destruct (fields_split 35%N (lit "## Response:") i1 i2 _ _ eq_refl R1 R2 E)
      as [-> E'].
    apply app_inv_head in E'. subst o2.
    destruct x1; [|discriminate]. destruct x2; [|discriminate].
    reflexivity.
Qed.

Lemma format_instruction_injective_witness :
  contains INPUT_MARKER (lit "Say hi") = false
  /\ contains RESPONSE_MARKER (lit "Say hi") = false
  /\ contains RESPONSE_MARKER (lit "in French") = false
  /\ (text (format_instruction
              (mkExample (lit "Say hi") (lit "in French") (lit "Salut!")))
      = text (format_instruction
                (mkExample (lit "Say hi") (lit "in French") (lit "Salut!")))
      -> mkExample (lit "Say hi") (lit "in French") (lit "Salut!")
         = mkExample (lit "Say hi") (lit "in French") (lit "Salut!")).
Proof.
  refine (conj eq_refl (conj eq_refl (conj eq_refl _))).
  apply (format_instruction_injective
           (mkExample (lit "Say hi") (lit "in French") (lit "Salut!"))
           (mkExample (lit "Say hi") (lit "in French") (lit "Salut!")));
    reflexivity.
Defined.

(** Without the conditions two different examples can give one text: the
    instruction of the second quotes the section heading. *)
Lemma format_instruction_collision :
  mkExample (lit "a") [] (lit "b" ++ [nl; nl] ++ lit "### Response:"
                          ++ [nl] ++ lit "c")
  <> mkExample (lit "a" ++ [nl; nl] ++ lit "### Response:" ++ [nl] ++ lit "b")
               [] (lit "c")
  /\ text (format_instruction
             (mkExample (lit "a") []
                (lit "b" ++ [nl; nl] ++ lit "### Response:" ++ [nl]
                 ++ lit "c")))
     = text (format_instruction
               (mkExample
                  (lit "a" ++ [nl; nl] ++ lit "### Response:" ++ [nl]
                   ++ lit "b") [] (lit "c"))).
Proof. split; [discriminate | vm_compute; reflexivity]. Qed.

(** X3: whatever the fields contain, the first "### Instruction:" of the
    text is the heading of the template, two characters after the
    preamble. *)
Theorem format_instruction_first_heading (example : Example) :
  find INSTRUCTION_MARKER (text (format_instruction example))
  = Some (if truthy (input example)
          then length preamble_with_input + 2
          else length preamble_without_input + 2).
Proof.
  unfold format_instruction; cbn [text].
  change INSTRUCTION_MARKER with (@cons char 35%N (lit "## Instruction:")).
  destruct (truthy (input example)).
  - rewrite (find_after_field 35%N (lit "## Instruction:")
               preamble_with_input _ eq_refl eq_refl).
    reflexivity.
  - rewrite (find_after_field 35%N (lit "## Instruction:")
               preamble_without_input _ eq_refl eq_refl).
    reflexivity.
Qed.

(** X4: the inference prompt contains "### Input:" exactly when an input
    is given or the instruction quotes it. *)
Theorem build_prompt_input_marker (instruction input_text : str) :
  contains INPUT_MARKER (build_prompt instruction input_text)
  = truthy input_text || contains INPUT_MARKER instruction.
Proof.
  unfold build_prompt. destruct (truthy input_text); cbn [orb].
  - rewrite !(app_assoc _ _ (INPUT_MARKER ++ _)).
    apply contains_app_r, contains_app_l.
    unfold contains. rewrite startswith_find_0; [reflexivity|].
    rewrite <- (app_nil_r INPUT_MARKER) at 2. apply startswith_refl_app.
  - change (preamble_without_input ++ [nl; nl] ++ INSTRUCTION_MARKER ++ [nl]
            ++ instruction ++ [nl; nl] ++ RESPONSE_MARKER ++ [nl])
      with (preamble_without_input ++ nl :: [] ++ nl :: INSTRUCTION_MARKER
            ++ nl :: instruction ++ nl :: [] ++ nl :: RESPONSE_MARKER
            ++ nl :: []).
    rewrite !contains_app_newline by reflexivity.
    replace (contains INPUT_MARKER preamble_without_input) with false
      by reflexivity.
    replace (contains INPUT_MARKER INSTRUCTION_MARKER) with false
      by reflexivity.
    replace (contains INPUT_MARKER RESPONSE_MARKER) with false by reflexivity.
    replace (contains INPUT_MARKER []) with false by reflexivity.
    cbn [orb]. now rewrite orb_false_r.
Qed.

(* ================================================================= *)
(** ** Further properties of the response extraction *)

(** X5: for any text, extraction returns what follows the last
    occurrence of the marker, trimmed; the text before it is free. *)
Theorem extract_response_after_last_marker (before after : str) :
  contains RESPONSE_MARKER after = false ->
  extract_response (before ++ RESPONSE_MARKER ++ after)
  = Some (strip after).
Proof.
  intros H. unfold extract_response. rewrite bind_assoc_last.
  change RESPONSE_MARKER with (@cons char 35%N (lit "## Response:")) in *.
  cbn [split bind].
  rewrite last_split_after_last by (reflexivity || exact H).
  reflexivity.
Qed.

Lemma extract_response_after_last_marker_witness :
  contains RESPONSE_MARKER (lit " second ") = false
  /\ extract_response
       (lit "### Response: first ### Respon" ++ RESPONSE_MARKER
        ++ lit " second ")
     = Some (strip (lit " second ")).
Proof.
  split; [reflexivity|].
  apply (extract_response_after_last_marker
           (lit "### Response: first ### Respon") (lit " second ")).
  reflexivity.
Defined.

(** X6: the result of extraction is a contiguous part of the response
    and does not contain the marker; in particular extraction never
    raises. *)
Theorem extract_response_part (response : str) :
  exists (result before after : str),
    extract_response response = Some result
    /\ response = before ++ result ++ after
    /\ contains RESPONSE_MARKER result = false.
Proof.
  unfold extract_response. rewrite bind_assoc_last.
  change RESPONSE_MARKER with (@cons char 35%N (lit "## Response:")).
  cbn [split bind].
  destruct (last_split_from_suffix 35%N (lit "## Response:")
              (length response) response) as (u & part & Hl & Hs).
  destruct (last_split_from_free 35%N (lit "## Response:")
              (length response) response (Nat.le_refl _))
    as (part' & Hl' & Hfree).
  rewrite Hl in Hl'. injection Hl' as <-.
  destruct (strip_substring part) as (a & b & Hab).
  exists (strip part), (u ++ a), b.
  rewrite Hl. cbn [bind]. split; [reflexivity|]. split.
  - rewrite <- app_assoc, <- Hab. exact Hs.
  - now apply contains_strip_false.
Qed.

(** X7: whatever the model produces, the response returned by
    [generate_response] neither begins nor ends with white space. *)
Theorem generate_response_trimmed
  (decode_generate : str -> str) (instruction input_text : str) :
  exists result : str,
    generate_response decode_generate instruction input_text = Some result
    /\ (forall c : char, hd_error result = Some c -> isspace c = false)
    /\ (forall c : char, hd_error (rev result) = Some c -> isspace c = false).
Proof.
  unfold generate_response.
  destruct (extract_response_total
              (decode_generate (build_prompt instruction input_text)))
    as (part & -> & _).
  exists (strip part). split; [reflexivity|]. split; intros c.
  - apply strip_head.
  - apply strip_last.
Qed.

(** X8: extraction is idempotent: applied to its own result it returns
    the result unchanged. *)
Theorem extract_response_idempotent (response result : str) :
  extract_response response = Some result ->
  extract_response result = Some result.
Proof.
  intros H.
  destruct (extract_response_total response) as (part & Hp & Hfree).
  rewrite Hp in H. injection H as <-.
  assert (Hs : contains RESPONSE_MARKER (strip part) = false)
    by now apply contains_strip_false.
  unfold extract_response. rewrite bind_assoc_last.
  rewrite split_last_absent by (reflexivity || exact Hs).
  cbn [bind]. now rewrite strip_idempotent.
Qed.

Lemma extract_response_idempotent_witness :
  extract_response (lit "### Response: Hi! ") = Some (lit "Hi!")
  /\ extract_response (lit "Hi!") = Some (lit "Hi!").
Proof.
  split; [reflexivity|].
  apply (extract_response_idempotent (lit "### Response: Hi! ") (lit "Hi!")).
  reflexivity.
Defined.

Lemma extract_response_right_inverse_iff_witness :
  contains RESPONSE_MARKER (lit " Bonjour ") = false
  /\ extract_response (build_prompt (lit "Say hi") (lit "in French")
                       ++ lit " Bonjour ")
     = Some (strip (lit " Bonjour ")).
Proof.
  split; [reflexivity|].
  apply (proj2 (extract_response_right_inverse_iff
                  (lit "Say hi") (lit "in French") (lit " Bonjour "))).
  reflexivity.
Defined.

(* ================================================================= *)
(** ** The training slice and the formatted training set *)

Lemma train_dataset_firstn {A : Type} (rows : list A) :
  (Z.of_nat (length rows) < 2 ^ 53)%Z ->
  train_dataset rows = Some (firstn (length rows / 100) rows).
Proof.
  intros Hlen. unfold train_dataset, slice.
  rewrite train_size_DATASET_SIZE by lia. cbn [bind].
  assert (length rows / 100 <= length rows)
    by (apply Nat.Div0.div_le_upper_bound; lia).
  assert (Hdiv : (Z.of_nat (length rows) / 100
                  = Z.of_nat (length rows / 100))%Z)
    by (now rewrite Nat2Z.inj_div).
  rewrite Hdiv, select_range by lia.
  now rewrite Nat2Z.id.
Qed.

Lemma formatted_dataset_rows_aux (rows : list Example) :
  (Z.of_nat (length rows) < 2 ^ 53)%Z ->
  exists records : list Formatted,
    formatted_dataset rows = Some records
    /\ forall i : nat,
         i < length rows / 100 ->
         nth_error records i
         = option_map format_instruction (nth_error rows i).
Proof.
  intros Hlen. unfold formatted_dataset.
  rewrite train_dataset_firstn by exact Hlen. cbn [bind].
  eexists. split; [reflexivity|].
  intros i Hi. rewrite nth_error_map, nth_error_firstn.
  apply Nat.ltb_lt in Hi. now rewrite Hi.
Qed.

(** X9: the formatted training set has one record for each of the first
    floor(len / 100) rows, in their order: record [i] is the formatting
    of row [i]. *)
Theorem formatted_dataset_rows (rows : list Example) :
  (Z.of_nat (length rows) < 2 ^ 53)%Z ->
  exists records : list Formatted,
    formatted_dataset rows = Some records
    /\ length records = length rows / 100
    /\ forall i : nat,
         i < length rows / 100 ->
         nth_error records i
         = option_map format_instruction (nth_error rows i).
Proof.
  intros Hlen. unfold formatted_dataset.
  rewrite train_dataset_firstn by exact Hlen. cbn [bind].
  assert (Hk : length rows / 100 <= length rows)
    by (apply Nat.Div0.div_le_upper_bound; lia).
  eexists. split; [reflexivity|]. split.
  - rewrite length_map, length_firstn. lia.
  - intros i Hi. rewrite nth_error_map, nth_error_firstn.
    apply Nat.ltb_lt in Hi. now rewrite Hi.
Qed.

Lemma formatted_dataset_rows_witness :
  (Z.of_nat (length (repeat (mkExample (lit "Say hi") [] (lit "Hi!")) 250))
   < 2 ^ 53)%Z
  /\ exists records : list Formatted,
       formatted_dataset (repeat (mkExample (lit "Say hi") [] (lit "Hi!")) 250)
       = Some records
       /\ length records = 2.
Proof.
  assert (H : (Z.of_nat (length (repeat (mkExample (lit "Say hi") []
                                           (lit "Hi!")) 250)) < 2 ^ 53)%Z)
    by (vm_compute; reflexivity).
  split; [exact H|].
  destruct (formatted_dataset_rows
              (repeat (mkExample (lit "Say hi") [] (lit "Hi!")) 250) H)
    as (records & Hr & Hl & _).
  exists records. split; [exact Hr|].
  rewrite Hl. vm_compute. reflexivity.
Defined.

(** X10: at the configured fraction the training slice is empty exactly
    for datasets of fewer than 100 rows; no error is raised for them. *)
Theorem train_dataset_empty_iff {A : Type} (rows : list A) :
  (Z.of_nat (length rows) < 2 ^ 53)%Z ->
  (train_dataset rows = Some [] <-> length rows < 100).
Proof.
  intros Hlen. rewrite train_dataset_firstn by exact Hlen.
  assert (Hk : length rows / 100 <= length rows)
    by (apply Nat.Div0.div_le_upper_bound; lia).
  split.
  - remember (length rows / 100) as k eqn:Ek.
    intros H. injection H as H.
    apply (f_equal (@length _)) in H.
    rewrite length_firstn, Nat.min_l in H by exact Hk.
    cbn [length] in H. subst k.
    now apply Nat.div_small_iff in H.
  - intros H. now rewrite Nat.div_small.
Qed.

Lemma train_dataset_empty_iff_witness :
  (Z.of_nat (length (seq 0 99)) < 2 ^ 53)%Z
  /\ length (seq 0 99) < 100
  /\ train_dataset (seq 0 99) = Some [].
Proof.
  assert (H : (Z.of_nat (length (seq 0 99)) < 2 ^ 53)%Z)
    by (vm_compute; reflexivity).
  assert (H' : length (seq 0 99) < 100) by (vm_compute; lia).
  refine (conj H (conj H' _)).
  apply (proj2 (train_dataset_empty_iff (seq 0 99) H)). exact H'.
Defined.

(** X11: for every fraction, a slice that is returned is a prefix of the
    dataset: rows are never reordered, repeated or taken from
    elsewhere. *)
Theorem slice_is_prefix {A : Type} (rows sl : list A) (fraction : float) :
  slice rows fraction = Some sl ->
  exists rest : list A, rows = sl ++ rest.
Proof.
  unfold slice. destruct (train_size _ fraction) as [k|]; [|discriminate].
  cbn [bind]. intros H.
  destruct rows as [|r rows]; [injection H as <-; now exists []|].
  destruct (Z_le_gt_dec k (Z.of_nat (length (r :: rows)))) as [Hk|Hk].
  - rewrite select_range in H by exact Hk. injection H as <-.
    exists (skipn (Z.to_nat k) (r :: rows)). now rewrite firstn_skipn.
  - unfold range in H.
    rewrite select_seq_out in H by (discriminate || lia).
    discriminate.
Qed.

Lemma slice_is_prefix_witness :
  slice (seq 0 10) (decimal 25 2) = Some [0; 1]
  /\ exists rest : list nat, seq 0 10 = [0; 1] ++ rest.
Proof.
  assert (H : slice (seq 0 10) (decimal 25 2) = Some [0; 1])
    by (vm_compute; reflexivity).
  split; [exact H|].
  exact (slice_is_prefix (seq 0 10) [0; 1] (decimal 25 2) H).
Defined.

(** X12: the edges of the selection.  A count that is zero or negative
    gives the empty slice; a count above the number of rows of a
    non-empty dataset makes the selection raise. *)
Theorem slice_count_edges {A : Type} (rows : list A) (fraction : float)
  (k : Z) :
  train_size (Z.of_nat (length rows)) fraction = Some k ->
  ((k <= 0)%Z -> slice rows fraction = Some [])
  /\ ((Z.of_nat (length rows) < k)%Z -> rows <> [] ->
      slice rows fraction = None).
Proof.
  intros Hk. unfold slice. rewrite Hk. cbn [bind]. split.
  - intros H. rewrite select_range by lia.
    now replace (Z.to_nat k) with 0 by lia.
  - intros H Hne. unfold range. apply select_seq_out; [exact Hne | lia | lia].
Qed.

Lemma slice_count_edges_witness :
  train_size (Z.of_nat (length (seq 0 4))) (decimal (-5) 1) = Some (-2)%Z
  /\ slice (seq 0 4) (decimal (-5) 1) = Some []
  /\ train_size (Z.of_nat (length (seq 0 4))) (decimal 15 1) = Some 6%Z
  /\ slice (seq 0 4) (decimal 15 1) = None.
Proof.
  assert (H1 : train_size (Z.of_nat (length (seq 0 4))) (decimal (-5) 1)
               = Some (-2)%Z) by (vm_compute; reflexivity).
  assert (H2 : train_size (Z.of_nat (length (seq 0 4))) (decimal 15 1)
               = Some 6%Z) by (vm_compute; reflexivity).
  refine (conj H1 (conj _ (conj H2 _))).
  - apply (proj1 (slice_count_edges (seq 0 4) (decimal (-5) 1) (-2) H1)).
    vm_compute. discriminate.
  - apply (proj2 (slice_count_edges (seq 0 4) (decimal 15 1) 6 H2)).
    + vm_compute. reflexivity.
    + discriminate.
Defined.

(** X13: through the whole preparation, extraction recovers the output:
    for every row of the training slice whose output does not contain
    the marker, extraction applied to its formatted record returns the
    output, trimmed. *)
Theorem formatted_dataset_round_trip
  (rows : list Example) (i : nat) (example : Example) :
  (Z.of_nat (length rows) < 2 ^ 53)%Z ->
  i < length rows / 100 ->
  nth_error rows i = Some example ->
  contains RESPONSE_MARKER (output example) = false ->
  exists (records : list Formatted) (record : Formatted),
    formatted_dataset rows = Some records
    /\ nth_error records i = Some record
    /\ extract_response (text record) = Some (strip (output example)).
Proof.
  intros Hlen Hi Hrow Hout.
  destruct (formatted_dataset_rows_aux rows Hlen) as (records & Hr & Hn).
  exists records, (format_instruction example).
  split; [exact Hr|]. split.
  - rewrite (Hn i Hi), Hrow. reflexivity.
  - rewrite format_instruction_build_prompt. now apply extract_after_prompt.
Qed.

Lemma formatted_dataset_round_trip_witness :
  (Z.of_nat (length (repeat (mkExample (lit "Say hi") [] (lit " Hi! ")) 100))
   < 2 ^ 53)%Z
  /\ 0 < length (repeat (mkExample (lit "Say hi") [] (lit " Hi! ")) 100) / 100
  /\ exists (records : list Formatted) (record : Formatted),
       formatted_dataset (repeat (mkExample (lit "Say hi") [] (lit " Hi! ")) 100)
       = Some records
       /\ nth_error records 0 = Some record
       /\ extract_response (text record) = Some (lit "Hi!").
Proof.
  assert (H1 : (Z.of_nat (length (repeat (mkExample (lit "Say hi") []
                                            (lit " Hi! ")) 100)) < 2 ^ 53)%Z)
    by (vm_compute; reflexivity).
  assert (H2 : 0 < length (repeat (mkExample (lit "Say hi") []
                                     (lit " Hi! ")) 100) / 100)
    by (vm_compute; lia).
  refine (conj H1 (conj H2 _)).
  exact (formatted_dataset_round_trip
           (repeat (mkExample (lit "Say hi") [] (lit " Hi! ")) 100) 0
           (mkExample (lit "Say hi") [] (lit " Hi! ")) H1 H2 eq_refl eq_refl).
Defined.

(* ================================================================= *)
(** ** The count of the parameters *)

Section CountParameters.

Local Open Scope N_scope.

Lemma count_step_fold (named : list (str * Param)) (t a : N) :
  fold_left count_step named (t, a)
  = (t + fold_right N.add 0
           (map (fun np => numel (snd np))
              (filter (fun np => requires_grad (snd np)) named)),
     a + fold_right N.add 0 (map (fun np => numel (snd np)) named)).
Proof.
  revert t a; induction named as [|[name p] named IH]; intros t a.
  - cbn. now rewrite !N.add_0_r.
  - cbn [fold_left count_step]. rewrite IH.
    cbn [filter map fold_right snd].
    destruct (requires_grad p); cbn [map fold_right snd]; f_equal; lia.
Qed.

Lemma total_trainable_le (named : list (str * Param)) :
  fold_right N.add 0
    (map (fun np => numel (snd np))
       (filter (fun np => requires_grad (snd np)) named))
  <= fold_right N.add 0 (map (fun np => numel (snd np)) named).
Proof.
  induction named as [|[name p] named IH]; [reflexivity|].
  cbn [filter map fold_right snd].
  destruct (requires_grad p); cbn [map fold_right snd]; lia.
Qed.

Lemma total_trainable_eq (named : list (str * Param)) :
  fold_right N.add 0
    (map (fun np => numel (snd np))
       (filter (fun np => requires_grad (snd np)) named))
  = fold_right N.add 0 (map (fun np => numel (snd np)) named)
  <-> forall np, In np named ->
        requires_grad (snd np) = false -> numel (snd np) = 0.
Proof.
  induction named as [|[name p] named IH].
  - split; [intros _ np []|reflexivity].
  - pose proof (total_trainable_le named) as Hle.
    cbn [filter map fold_right snd].
    destruct (requires_grad p) eqn:E; cbn [map fold_right snd].
    + split.
      * intros H np [<-|Hin] Hg; cbn [snd] in *; [congruence|].
        apply IH; [lia | exact Hin | exact Hg].
      * intros H. f_equal. apply IH. intros np Hin. apply H. now right.
    + split.
      * intros H np [<-|Hin] Hg; cbn [snd] in *; [lia|].
        apply IH; [lia | exact Hin | exact Hg].
      * intros H.
        assert (Hp : numel p = 0)
          by (apply (H (name, p)); [now left | exact E]).
        rewrite Hp. cbn [N.add].
        apply IH. intros np Hin. apply H. now right.
Qed.

(** X14: after the loop [all_param] is the sum of the sizes of all
    parameters and [trainable_params] the sum of the sizes of those
    that require a gradient. *)
Theorem count_parameters_sums (named_parameters : list (str * Param)) :
  count_parameters named_parameters
  = (fold_right N.add 0
       (map (fun np => numel (snd np))
          (filter (fun np => requires_grad (snd np)) named_parameters)),
     fold_right N.add 0
       (map (fun np => numel (snd np)) named_parameters)).
Proof.
  unfold count_parameters. rewrite count_step_fold. reflexivity.
Qed.

(** X15: [trainable_params] never exceeds [all_param], and the two are
    equal exactly when every parameter that requires no gradient is
    empty. *)
Theorem count_parameters_bound (named_parameters : list (str * Param)) :
  fst (count_parameters named_parameters)
  <= snd (count_parameters named_parameters)
  /\ (fst (count_parameters named_parameters)
      = snd (count_parameters named_parameters)
      <-> forall np, In np named_parameters ->
            requires_grad (snd np) = false -> numel (snd np) = 0).
Proof.
  unfold count_parameters. rewrite count_step_fold. cbn [fst snd N.add].
  split; [apply total_trainable_le | apply total_trainable_eq].
Qed.

(** X16: counting is additive: the counts of two lists of parameters one
    after the other, such as the base model and the adapter, are the sums
    of their counts. *)
Theorem count_parameters_app (base adapter : list (str * Param)) :
  count_parameters (base ++ adapter)
  = (fst (count_parameters base) + fst (count_parameters adapter),
     snd (count_parameters base) + snd (count_parameters adapter)).
Proof.
  unfold count_parameters.
  rewrite fold_left_app. repeat rewrite count_step_fold.
  cbn [fst snd]. f_equal; lia.
Qed.

End CountParameters.
